(** * Room-hire dashboard (test2.py): the filter-then-aggregate pipeline

    The script loads a table of room-hire listings, filters it by four
    multi-select widgets, and derives a handful of aggregates from the
    filtered table.  This file embeds that pipeline and the page
    navigation flag, and proves the properties stated for them.

    Data model.  A row carries the nine named columns of the sheet.
    Text cells are strings, [Capacity] is an integer, and the three
    decimal columns are exact rationals ([Qc], canonical fractions, so
    that equal numbers are equal terms).  Every cell is populated.
    Results of numeric column operations live in [fval], which adds to
    the rationals the three special values a float column can hold
    (+inf, -inf, NaN): they arise from a division by a zero capacity
    and from the mean of an empty column.

    Numbers are exact.  The rounding of float64 arithmetic is not
    modelled, so a result [Fin q] tells which quantity is computed
    (which rows are averaged, what is divided by what), not the bits of
    the float that the library returns.  pandas sums a column and a
    group by different routines, whose roundings differ; the model
    does not tell them apart. *)

From Stdlib Require Import QArith Qcanon Lqa.
From stdpp Require Import numbers sorting gmap strings list.

Local Open Scope Qc_scope.

(** ** Rows and data frames *)

Record row := Row {
  Location : string;
  Organisation_Name : string;
  Names_of_Room : string;
  Capacity : Z;
  Time_of_day : string;
  Minimum_Duration_per_hour : Qc;
  Price_per_hour : Qc;
  Cost_per_person : Qc;
  Capacity_tier : string
}.

(** A data frame is the ordered sequence of its rows; [df["c"]] is the
    list of the cells of column [c] in row order. *)
Abbreviation dataframe := (list row).

Definition column {A} (c : row → A) (df : dataframe) : list A := c <$> df.

(** ** Values of numeric results *)

Inductive fval :=
  | Fin (q : Qc)
  | PInf
  | NInf
  | NaN.

Global Instance fval_eq_dec : EqDecision fval.
Proof. solve_decision. Defined.

Definition is_finite (x : fval) : Prop :=
  match x with Fin _ => True | _ => False end.

Definition isna (x : fval) : bool :=
  match x with NaN => true | _ => false end.

Definition fadd (x y : fval) : fval :=
  match x, y with
  | NaN, _ | _, NaN => NaN
  | PInf, NInf | NInf, PInf => NaN
  | PInf, _ | _, PInf => PInf
  | NInf, _ | _, NInf => NInf
  | Fin a, Fin b => Fin (a + b)
  end.

(** Division of a decimal cell by an integer cell, as the element-wise
    [/] of two columns performs it: a zero divisor raises nothing and
    yields an infinity of the sign of the dividend, or NaN for 0/0. *)
Definition truediv (p : Qc) (c : Z) : fval :=
  if decide (c = 0%Z) then
    (if decide (0 < p) then PInf else if decide (p < 0) then NInf else NaN)
  else Fin (p / Qc_of_Z c).

(** Division of a running total by a row count. *)
Definition fdiv_count (x : fval) (n : nat) : fval :=
  match x with
  | Fin s => Fin (s / Qc_of_Z (Z.of_nat n))
  | other => other
  end.

(** ** Series operations *)

Definition Qcsum (l : list Qc) : Qc := foldr Qcplus 0 l.

(** Arithmetic mean of a list of rationals (of a non-empty list). *)
Definition Qcmean (l : list Qc) : Qc := Qcsum l / Qc_of_Z (Z.of_nat (length l)).

Definition dropna (s : list fval) : list fval :=
  filter (λ x, isna x = false) s.

(** [Series.mean()]: missing values are skipped; with nothing left to
    average the result is NaN, and no error is raised.  The mean of the
    remaining values is the exact one (see the note on numbers above). *)
Definition series_mean (s : list fval) : fval :=
  match dropna s with
  | [] => NaN
  | v => fdiv_count (foldr fadd (Fin 0) v) (length v)
  end.

(** Element-wise division of a decimal column by an integer column of
    the same frame (both carry the same row labels, so the pairing is
    positional). *)
Definition series_div (num : list Qc) (den : list Z) : list fval :=
  zip_with truediv num den.

(** [Series.unique()]: the distinct values in order of first
    appearance. *)
Fixpoint unique_from {A} `{EqDecision A} (seen l : list A) : list A :=
  match l with
  | [] => []
  | x :: l' =>
      if decide (x ∈ seen) then unique_from seen l'
      else x :: unique_from (x :: seen) l'
  end.

Definition unique {A} `{EqDecision A} (l : list A) : list A :=
  unique_from [] l.

(** [Series.isin(values)]: a boolean mask, one entry per row. *)
Definition isin {A} `{EqDecision A} (values : list A) (s : list A) : list bool :=
  (λ x, bool_decide (x ∈ values)) <$> s.

(** Element-wise [&] of two masks. *)
Definition mask_and (m1 m2 : list bool) : list bool := zip_with andb m1 m2.

(** [df[mask]]: the rows whose mask entry is true, in frame order. *)
Definition mask_select (df : dataframe) (mask : list bool) : dataframe :=
  (filter (λ rb, rb.2 = true) (zip df mask)).*1.

(** ** Sidebar filters and the selector *)

Record selection := Selection {
  sel_Organisation_Name : list string;
  sel_Time_of_day : list string;
  sel_Location : list string;
  sel_Capacity_tier : list string
}.

(** The four multi-selects (lines 55-77): the options and the default
    of each are the distinct-value list of its column in the loaded
    frame. *)
Definition default_selection (df : dataframe) : selection :=
  {| sel_Organisation_Name := unique (column Organisation_Name df);
     sel_Time_of_day := unique (column Time_of_day df);
     sel_Location := unique (column Location df);
     sel_Capacity_tier := unique (column Capacity_tier df) |}.

(** The filtered subset (lines 80-85): the frame indexed by the
    conjunction of the four membership masks. *)
Definition df_selection (df : dataframe) (s : selection) : dataframe :=
  mask_select df
    (mask_and
      (mask_and
        (mask_and
          (isin (sel_Organisation_Name s) (column Organisation_Name df))
          (isin (sel_Time_of_day s) (column Time_of_day df)))
        (isin (sel_Location s) (column Location df)))
      (isin (sel_Capacity_tier s) (column Capacity_tier df))).

(** The row predicate the four masks add up to. *)
Definition row_passes (s : selection) (r : row) : bool :=
  bool_decide (Organisation_Name r ∈ sel_Organisation_Name s)
  && bool_decide (Time_of_day r ∈ sel_Time_of_day s)
  && bool_decide (Location r ∈ sel_Location s)
  && bool_decide (Capacity_tier r ∈ sel_Capacity_tier s).

(** ** Orders on group keys

    Grouped results come out sorted by key: text keys in the order of
    Python's string comparison (character by character, by code), and
    numeric keys by value. *)

Definition str_le (s1 s2 : string) : Prop :=
  Stdlib.Strings.String.leb s1 s2 = true.

Global Instance str_le_dec : RelDecision str_le.
Proof. intros s1 s2. unfold str_le. apply _. Defined.

(** Tuples of two text keys compare lexicographically. *)
Definition pair_le (a b : string * string) : Prop :=
  if decide (a.1 = b.1) then str_le a.2 b.2 else str_le a.1 b.1.

Global Instance pair_le_dec : RelDecision pair_le.
Proof. intros a b. unfold pair_le. destruct (decide (a.1 = b.1)); apply _. Defined.

(** ** Group-by and grouped mean *)

Section groupby.
Context {K : Type} `{EqDecision K}.
Context (le : relation K) `{∀ x y, Decision (le x y)}.

(** The group keys: the distinct key values present in the frame,
    sorted. *)
Definition group_keys (key : row → K) (df : dataframe) : list K :=
  merge_sort le (unique (column key df)).

Definition group_rows (key : row → K) (k : K) (df : dataframe) : dataframe :=
  filter (λ r, key r = k) df.

(** [df.groupby(key)]: each key with the rows that carry it. *)
Definition groupby (key : row → K) (df : dataframe) : list (K * dataframe) :=
  (λ k, (k, group_rows key k df)) <$> group_keys key df.

(** [df.groupby(key).size()]. *)
Definition group_sizes (key : row → K) (df : dataframe) : list (K * nat) :=
  (λ g, (g.1, length g.2)) <$> groupby key df.

(** [df.groupby(key)[val].mean().reset_index()]: one result row per
    group, holding the key and the mean of [val] over the group.  The
    library has a summation routine of its own for grouped means; as
    numbers are exact here, the mean of a group is written with the
    same [series_mean]. *)
Definition groupby_mean (key : row → K) (val : row → Qc) (df : dataframe)
    : list (K * fval) :=
  (λ g, (g.1, series_mean (Fin <$> column val g.2))) <$> groupby key df.
End groupby.

(** ** The metrics and the chart tables of the Home page *)

(** Lines 92-94. *)
Definition avg_price_by_tier (df : dataframe) : list (string * fval) :=
  groupby_mean str_le Capacity_tier Price_per_hour df.

Definition avg_price_per_hour (df : dataframe) : fval :=
  series_mean (Fin <$> column Price_per_hour df).

Definition avg_price_per_person (df : dataframe) : fval :=
  series_mean (series_div (column Price_per_hour df) (column Capacity df)).

(** Line 105. *)
Definition avg_price_by_time (df : dataframe) : list (string * fval) :=
  groupby_mean str_le Time_of_day Price_per_hour df.

(** Line 153. *)
Definition avg_price_by_duration (df : dataframe) : list (Qc * fval) :=
  groupby_mean Qcle Minimum_Duration_per_hour Price_per_hour df.

(** ** Pivot table *)

Record pivot := Pivot {
  pv_index : list string;
  pv_columns : list string;
  pv_values : list (list fval)
}.

(** Value stored under a key in a keyed table. *)
Definition assoc {K V} `{EqDecision K} (k : K) (t : list (K * V)) : option V :=
  snd <$> (snd <$> list_find (λ kv, kv.1 = k) t).

(** Cell of the unstacked table: the aggregated value of the pair of
    keys, NaN where the pair has no group. *)
Definition unstack_cell (g : list ((string * string) * fval)) (t d : string) : fval :=
  default NaN (assoc (t, d) g).

(** [pivot_table(index, columns, values, aggfunc="mean")]: group by the
    pair of keys and average; drop groups whose mean is missing; move
    the second key to the columns, filling absent pairs with NaN; drop
    columns that are missing throughout. *)
Definition pivot_table (idx col : row → string) (val : row → Qc) (df : dataframe)
    : pivot :=
  let agged := groupby_mean pair_le (λ r, (idx r, col r)) val df in
  let agged := filter (λ kv, isna kv.2 = false) agged in
  let index := merge_sort str_le (unique (agged.*1.*1)) in
  let columns := merge_sort str_le (unique (agged.*1.*2)) in
  let columns :=
    filter (λ d, Exists (λ t, isna (unstack_cell agged t d) = false) index) columns in
  {| pv_index := index;
     pv_columns := columns;
     pv_values := (λ t, (λ d, unstack_cell agged t d) <$> columns) <$> index |}.

(** What a cell is meant to hold: the mean of the value column over
    the rows that carry both labels, NaN when there is no such row. *)
Definition cell_mean (idx col : row → string) (val : row → Qc)
    (df : dataframe) (t d : string) : fval :=
  match group_rows (λ r, (idx r, col r)) (t, d) df with
  | [] => NaN
  | rows => Fin (Qcmean (column val rows))
  end.

(** Lines 130-133. *)
Definition heatmap_data (df : dataframe) : pivot :=
  pivot_table Capacity_tier Time_of_day Cost_per_person df.

(** Position of a label in an axis. *)
Definition label_pos (l : string) (axis : list string) : option nat :=
  fst <$> list_find (λ x, x = l) axis.

(** [table.loc[t, d]]: the cell addressed by its two labels. *)
Definition pivot_loc (p : pivot) (t d : string) : option fval :=
  i ← label_pos t (pv_index p);
  j ← label_pos d (pv_columns p);
  cells ← pv_values p !! i;
  cells !! j.

(** ** Sorting by a column and the five dearest rooms *)

(** Positional indexing with a list of positions; a position outside
    the list is an error. *)
Definition take_idx {A} (l : list A) (idx : list nat) : option (list A) :=
  mapM (λ i, l !! i) idx.

Section sort_values.
(** The sorting kernel: an argsort of the keys in ascending order.
    [sort_values] is called without [kind], so the kernel is the
    default one, which does not promise an order among equal keys. *)
Variable argsort : list Qc → list nat.

(** Descending order is obtained by reversing the keys, sorting
    ascending, and reversing the resulting positions. *)
Definition nargsort_desc (k : list Qc) : option (list nat) :=
  let non_nans := reverse k in
  let non_nan_idx := reverse (seq 0 (length k)) in
  indexer ← take_idx non_nan_idx (argsort non_nans);
  Some (reverse indexer).

Definition sort_values_desc (key : row → Qc) (df : dataframe) : option dataframe :=
  indexer ← nargsort_desc (column key df);
  take_idx df indexer.

(** Line 146: [sort_values(by="Price_per_hour", ascending=False)]
    followed by [head(5)]. *)
Definition top_rooms (df : dataframe) : option dataframe :=
  take 5 <$> sort_values_desc Price_per_hour df.
End sort_values.

(** What a sorting kernel guarantees: the positions of the input, each
    once, arranged so that the keys they address ascend. *)
Definition argsort_spec (argsort : list Qc → list nat) : Prop :=
  ∀ k, argsort k ≡ₚ seq 0 (length k) ∧
       ∀ ks, take_idx k (argsort k) = Some ks → StronglySorted Qcle ks.

(** A kernel keeps ties in order (is stable) when, for each key value,
    the positions that hold it come out in ascending order. *)
Definition argsort_keeps_ties (argsort : list Qc → list nat) : Prop :=
  ∀ k q, filter (λ i, k !! i = Some q) (argsort k)
         = filter (λ i, k !! i = Some q) (seq 0 (length k)).

(** Two sorts that meet this contract and differ only on equal keys:
    among them the first keeps the original order, the second reverses
    it.  They serve to instantiate statements made for every kernel;
    neither is put forward as the library's own. *)
Definition key_idx_le (keep : bool) (a b : Qc * nat) : Prop :=
  a.1 < b.1 ∨ (a.1 = b.1 ∧ if keep then (a.2 ≤ b.2)%nat else (b.2 ≤ a.2)%nat).

Global Instance key_idx_le_dec keep : RelDecision (key_idx_le keep).
Proof. intros a b. unfold key_idx_le. destruct keep; apply _. Defined.

Definition argsort_with (keep : bool) (k : list Qc) : list nat :=
  (merge_sort (key_idx_le keep) (zip k (seq 0 (length k)))).*2.

Definition argsort_stable : list Qc → list nat := argsort_with true.
Definition argsort_reversing : list Qc → list nat := argsort_with false.

(** *** The default kernel on short inputs

    With [kind] left at "quicksort", numpy (from version 2.0) on an
    x86 processor with AVX2 or AVX-512 runs its vectorised quicksort
    for 64-bit keys.  Its
    base case sorts the keys in vector registers by rounds of
    compare-exchange.  Up to four keys occupy the first lanes of one
    register, each with its position, the free lanes being padded with
    the largest value.  Three rounds act on four lanes: every lane with
    its neighbour, (0,1) and (2,3); every lane with its mirror image,
    (0,3) and (1,2); the neighbours again.  (A register of eight lanes
    goes through three further rounds; they find the four lanes sorted
    and the padding above them, and move nothing.)  In a round the
    lower lane of a pair receives the smaller key and the upper lane
    the larger; a lane keeps its position when the key it receives
    equals the key it held and takes the position of the other lane
    otherwise.  Two lanes are thus exchanged exactly when their keys
    are out of order, and never when they are equal. *)

(** A lane: a key with the position it came from, or padding. *)
Definition lane : Type := option (Qc * nat).

(** Padding is above every key. *)
Definition lane_lt (a b : lane) : bool :=
  match a, b with
  | Some x, Some y => bool_decide (x.1 < y.1)
  | Some _, None => true
  | None, _ => false
  end.

(** One pair of a round, on lanes [i] < [j]. *)
Definition cmp_merge (v : list lane) (pair : nat * nat) : list lane :=
  match v !! pair.1, v !! pair.2 with
  | Some a, Some b =>
      if lane_lt b a then <[pair.1 := b]> (<[pair.2 := a]> v) else v
  | _, _ => v
  end.

(** The three rounds; the pairs of a round are disjoint, so that they
    may be taken one after the other. *)
Definition sort_ymm_64bit (v : list lane) : list lane :=
  foldl cmp_merge v [(0, 1); (2, 3); (0, 3); (1, 2); (0, 1); (2, 3)]%nat.

(** Masked load of at most four keys with their positions, the three
    rounds, masked store of the positions. *)
Definition argsort_register (k : list Qc) : list nat :=
  let lanes := take 4 ((Some <$> zip k (seq 0 (length k))) ++ replicate 4 None) in
  omap (fmap snd) (take (length k) (sort_ymm_64bit lanes)).

(** Longer inputs are spread over several registers that are sorted
    one by one and then merged.  That part of the library is not
    reproduced: the definition is completed there by a sort that keeps
    ties in order, and nothing is drawn from it about inputs of more
    than four keys. *)
Definition argsort_vectorised (k : list Qc) : list nat :=
  if decide (length k ≤ 4)%nat then argsort_register k else argsort_stable k.

(** Following the specification's wording: a full descending sort by
    price with equal prices kept in original row order, cut to five. *)
Fixpoint insert_desc (key : row → Qc) (r : row) (l : dataframe) : dataframe :=
  match l with
  | [] => [r]
  | x :: l' =>
      if decide (key r < key x) then x :: insert_desc key r l'
      else r :: x :: l'
  end.

Definition stable_sort_desc (key : row → Qc) (df : dataframe) : dataframe :=
  foldr (insert_desc key) [] df.

Definition spec_top5 (df : dataframe) : dataframe :=
  take 5 (stable_sort_desc Price_per_hour df).

(** ** Average price per person, in the specification's two readings *)

Definition row_ratio (r : row) : Qc := Price_per_hour r / Qc_of_Z (Capacity r).

Definition mean_of_row_ratios (df : dataframe) : Qc := Qcmean (row_ratio <$> df).

Definition ratio_of_means (df : dataframe) : Qc :=
  Qcmean (column Price_per_hour df) / Qcmean (Qc_of_Z <$> column Capacity df).

(** ** Navigation state *)

(** What the user did to trigger a run of the script. *)
Inductive interaction :=
  | click_home
  | click_about
  | other_widget.

Definition home_btn (ev : interaction) : bool :=
  match ev with click_home => true | _ => false end.

Definition about_btn (ev : interaction) : bool :=
  match ev with click_about => true | _ => false end.

(** One pass over the navigation prologue of the script (lines 20-31):
    the page key is set to Home when absent, then each button that
    reports a click sets the page and ends the pass in [st.rerun()].
    The boolean tells whether the pass ended that way.

    The map holds what the script itself assigns, which is the page
    key.  The entries that Streamlit keeps on its own for widgets
    created with a [key] (the two buttons' "home_btn" and "about_btn")
    are not part of it, and nothing is stated about them. *)
Definition nav_pass (ev : interaction) (ss : gmap string string)
    : gmap string string * bool :=
  let ss := if decide (is_Some (ss !! "page")) then ss else <["page" := "Home"]> ss in
  if home_btn ev then (<["page" := "Home"]> ss, true)
  else if about_btn ev then (<["page" := "About"]> ss, true)
  else (ss, false).

(** A run triggered by an interaction: a pass that asks for a rerun is
    followed by a fresh pass in which no button reports a click. *)
Definition run (ev : interaction) (ss : gmap string string) : gmap string string :=
  let '(ss', rerun) := nav_pass ev ss in
  if rerun then (nav_pass other_widget ss').1 else ss'.

(** The session state after the first page load and a sequence of
    interactions. *)
Definition session (evs : list interaction) : gmap string string :=
  foldl (λ ss ev, run ev ss) (run other_widget ∅) evs.

Definition page (ss : gmap string string) : option string := ss !! "page".

(** ** A six-row fixture

    Prices 10 to 60, the first three rows in the small tier and the
    last three in the large one. *)

Definition listing (org tod loc tier : string) (cap dur price : Z) : row :=
  {| Location := loc; Organisation_Name := org; Names_of_Room := "Hall";
     Capacity := cap; Time_of_day := tod;
     Minimum_Duration_per_hour := Qc_of_Z dur;
     Price_per_hour := Qc_of_Z price;
     Cost_per_person := Qc_of_Z price / Qc_of_Z cap;
     Capacity_tier := tier |}.

Definition fixture : dataframe :=
  [ listing "Central" "Day" "North" "Small" 10 1 10;
    listing "Central" "Evening" "North" "Small" 10 2 20;
    listing "Guild" "Day" "South" "Small" 5 1 30;
    listing "Guild" "Evening" "South" "Large" 50 2 40;
    listing "Priory" "Day" "North" "Large" 60 3 50;
    listing "Priory" "Evening" "South" "Large" 100 1 60 ].

(** Rooms that differ in name only. *)
Definition room (name : string) : row :=
  {| Location := "North"; Organisation_Name := "Central";
     Names_of_Room := name; Capacity := 80; Time_of_day := "Day";
     Minimum_Duration_per_hour := Qc_of_Z 2; Price_per_hour := Qc_of_Z 40;
     Cost_per_person := Qc_of_Z 40 / Qc_of_Z 80; Capacity_tier := "Large" |}.

(** Two rooms at the same price. *)
Definition tie_fixture : dataframe := [room "Nave"; room "Crypt"].

(** Four rooms at two prices, the two cheaper ones first. *)
Definition priced_room (name : string) (price : Z) : row :=
  {| Location := "North"; Organisation_Name := "Central";
     Names_of_Room := name; Capacity := 80; Time_of_day := "Day";
     Minimum_Duration_per_hour := Qc_of_Z 2; Price_per_hour := Qc_of_Z price;
     Cost_per_person := Qc_of_Z price / Qc_of_Z 80; Capacity_tier := "Large" |}.

Definition two_price_rooms : dataframe :=
  [ priced_room "A" 30; priced_room "B" 30;
    priced_room "C" 45; priced_room "D" 45 ].

(** A room offered free of charge whose capacity was entered as zero,
    next to a room at 10 for two people. *)
Definition free_room_rows : dataframe :=
  [ listing "Central" "Day" "North" "Small" 0 1 0;
    listing "Central" "Day" "North" "Small" 2 1 10 ].

(** A selection is full for a frame when each of its four lists holds
    exactly the distinct values of its column in that frame. *)
Definition same_values (l1 l2 : list string) : Prop := ∀ x, x ∈ l1 ↔ x ∈ l2.

Definition full_selection (df : dataframe) (s : selection) : Prop :=
  same_values (sel_Organisation_Name s) (sel_Organisation_Name (default_selection df))
  ∧ same_values (sel_Time_of_day s) (sel_Time_of_day (default_selection df))
  ∧ same_values (sel_Location s) (sel_Location (default_selection df))
  ∧ same_values (sel_Capacity_tier s) (sel_Capacity_tier (default_selection df)).

(** A selection is empty on a column when it lets no value through there. *)
Definition empty_on_some_column (s : selection) : Prop :=
  sel_Organisation_Name s = [] ∨ sel_Time_of_day s = []
  ∨ sel_Location s = [] ∨ sel_Capacity_tier s = [].

(** ** The page as displayed

    What a pass over the script puts on the page, as the sequence of
    its display calls.  The model starts once the logo is loaded and
    the page is configured (after line 16). *)

Global Instance interaction_eq_dec : EqDecision interaction.
Proof. solve_decision. Defined.

(** The fixed texts of the script. *)
Inductive static_text :=
  | txt_navigation      (* "### Navigation", line 25 *)
  | txt_rule            (* "---", lines 33 and 102 *)
  | txt_spacer          (* "##", lines 42 and 89 *)
  | txt_findings_time   (* lines 111-115 *)
  | txt_findings_tier   (* lines 123-127 *)
  | txt_about           (* lines 164-189 *)
  | txt_footer.         (* lines 192-209 *)

(** The text of a metric: blank, or an amount in pounds (the amount is
    kept as a value; its rendering with two decimals is not modelled). *)
Inductive metric_text :=
  | blank
  | pounds (v : fval).

Inductive figure :=
  | px_bar (title : string) (data : list (string * fval))
  | px_imshow (title : string) (data : pivot)
  | px_scatter (title : string) (data : dataframe)
  | px_bar_rooms (title : string) (data : dataframe)
  | px_line (title : string) (data : list (Qc * fval)).

Inductive element :=
  | sidebar_markdown (t : static_text)
  | sidebar_button (label : string)
  | sidebar_image
  | sidebar_header (label : string)
  | sidebar_multiselect (label : string) (options default : list string)
  | st_title (t : string)
  | st_markdown (t : static_text)
  | st_metric (label : string) (value : metric_text)
  | st_dataframe (data : list (string * fval))
  | st_plotly_chart (fig : figure).

(** How a pass ends: it reaches the end of the script, it is cut short
    by [st.rerun()], or it is cut short by an exception. *)
Inductive outcome :=
  | finished
  | rerun
  | raised.

Global Instance outcome_eq_dec : EqDecision outcome.
Proof. solve_decision. Defined.

(** What the user has chosen in each multi-select; [None] for a widget
    that has not been touched, which then returns its default. *)
Record widget_state := Widgets {
  w_Organisation_Name : option (list string);
  w_Time_of_day : option (list string);
  w_Location : option (list string);
  w_Capacity_tier : option (list string)
}.

Definition untouched : widget_state := Widgets None None None None.

(** The values the four multi-selects return (lines 55-77). *)
Definition multiselect_values (df : dataframe) (w : widget_state) : selection :=
  {| sel_Organisation_Name :=
       default (unique (column Organisation_Name df)) (w_Organisation_Name w);
     sel_Time_of_day :=
       default (unique (column Time_of_day df)) (w_Time_of_day w);
     sel_Location :=
       default (unique (column Location df)) (w_Location w);
     sel_Capacity_tier :=
       default (unique (column Capacity_tier df)) (w_Capacity_tier w) |}.

(** The sidebar filters (lines 54-77). *)
Definition filter_controls (df : dataframe) : list element :=
  [ sidebar_header "Filter Here:";
    sidebar_multiselect "Select Organisation Name:"
      (unique (column Organisation_Name df)) (unique (column Organisation_Name df));
    sidebar_multiselect "Select Time of day:"
      (unique (column Time_of_day df)) (unique (column Time_of_day df));
    sidebar_multiselect "Select Location:"
      (unique (column Location df)) (unique (column Location df));
    sidebar_multiselect "Select Capacity Tier:"
      (unique (column Capacity_tier df)) (unique (column Capacity_tier df)) ].

(** The main column of the Home page down to the scatter plot (lines
    88-143), for a filtered subset. *)
Definition home_upper (sub : dataframe) : list element :=
  [ st_title "CCH Data Visualization Dashboard";
    st_markdown txt_spacer;
    st_metric "Average Price per Room by Tier" blank;
    st_metric "Average Price per Person" (pounds (avg_price_per_person sub));
    st_metric "Average Price per Hour" (pounds (avg_price_per_hour sub));
    st_dataframe (avg_price_by_tier sub);
    st_markdown txt_rule;
    st_plotly_chart
      (px_bar "Average Price per Hour by Time of Day" (avg_price_by_time sub));
    st_markdown txt_findings_time;
    st_plotly_chart
      (px_bar "Average Price per Room by Capacity Tier" (avg_price_by_tier sub));
    st_markdown txt_findings_tier;
    st_plotly_chart
      (px_imshow "Price per Person by Capacity Tier & Time" (heatmap_data sub));
    st_plotly_chart (px_scatter "Price per Hour vs Capacity" sub) ].

(** The Home branch (lines 38-156).  [sheet] is what reading the
    spreadsheet gives, [None] when the read raises. *)
Definition home_page (argsort : list Qc → list nat) (sheet : option dataframe)
    (w : widget_state) : list element * outcome :=
  let sidebar := [sidebar_image; sidebar_markdown txt_spacer] in
  match sheet with
  | None => (sidebar, raised)
  | Some df =>
      let sub := df_selection df (multiselect_values df w) in
      let shown := sidebar ++ filter_controls df ++ home_upper sub in
      match top_rooms argsort sub with
      | None => (shown, raised)
      | Some rooms =>
          (shown ++
           [ st_plotly_chart (px_bar_rooms "Top 5 Most Expensive Rooms" rooms);
             st_plotly_chart
               (px_line "Price per Hour by Minimum Booking Duration"
                  (avg_price_by_duration sub)) ],
           finished)
      end
  end.

(** The About branch (lines 161-189). *)
Definition about_page : list element * outcome :=
  ([st_title "About This Dataset"; st_markdown txt_about], finished).

(** The sidebar navigation as displayed by a pass (lines 25-33): a
    pass that is cut short by a click stops right after the button
    that was clicked. *)
Definition navigation_controls (ev : interaction) : list element :=
  [sidebar_markdown txt_navigation; sidebar_button "Home"]
  ++ (if home_btn ev then []
      else sidebar_button "About Us"
           :: (if about_btn ev then [] else [sidebar_markdown txt_rule])).

(** One pass over the whole script: the navigation prologue, then the
    branch of the current page, then the footer (line 211). *)
Definition script_pass (argsort : list Qc → list nat) (sheet : option dataframe)
    (w : widget_state) (ev : interaction) (ss : gmap string string)
    : gmap string string * list element * outcome :=
  let '(ss', cut) := nav_pass ev ss in
  if cut then (ss', navigation_controls ev, rerun)
  else
    let '(body, out) :=
      if decide (ss' !! "page" = Some "Home") then home_page argsort sheet w
      else if decide (ss' !! "page" = Some "About") then about_page
      else ([], finished) in
    (ss', navigation_controls ev ++ body
          ++ (if decide (out = finished) then [st_markdown txt_footer] else []),
     out).

(** What the user sees after an interaction: the pass it triggers, or,
    when that pass asks for a rerun, the pass that follows, in which no
    button reports a click. *)
Definition display (argsort : list Qc → list nat) (sheet : option dataframe)
    (w : widget_state) (ev : interaction) (ss : gmap string string)
    : gmap string string * list element * outcome :=
  let '(ss', els, out) := script_pass argsort sheet w ev ss in
  if decide (out = rerun) then script_pass argsort sheet w other_widget ss'
  else (ss', els, out).

(** * Properties *)

(** ** Distinct values *)

Section unique_facts.
Context {A : Type} `{EqDecision A}.
Implicit Types l seen : list A.

Lemma elem_of_unique_from seen l x :
  x ∈ unique_from seen l ↔ x ∈ l ∧ x ∉ seen.
Proof.
  revert seen. induction l as [|y l IH]; intros seen; simpl.
  - rewrite !elem_of_nil. tauto.
  - destruct (decide (y ∈ seen)) as [Hy|Hy].
    + rewrite IH, elem_of_cons. split; [tauto|].
      intros [[->|?] ?]; tauto.
    + rewrite !elem_of_cons, IH, elem_of_cons.
      destruct (decide (x = y)) as [->|Hne]; [tauto|]. tauto.
Qed.

Lemma elem_of_unique l x : x ∈ unique l ↔ x ∈ l.
Proof.
  unfold unique. rewrite elem_of_unique_from, elem_of_nil. tauto.
Qed.

Lemma NoDup_unique_from seen l : NoDup (unique_from seen l).
Proof.
  revert seen. induction l as [|y l IH]; intros seen; simpl.
  - constructor.
  - destruct (decide (y ∈ seen)); [apply IH|].
    constructor; [|apply IH].
    rewrite elem_of_unique_from, elem_of_cons. tauto.
Qed.

Lemma NoDup_unique l : NoDup (unique l).
Proof. apply NoDup_unique_from. Qed.
End unique_facts.

(** ** The selector is a row filter *)

Lemma elem_of_column {A} (c : row → A) (df : dataframe) (r : row) :
  r ∈ df → c r ∈ column c df.
Proof. apply list_elem_of_fmap_2. Qed.

Lemma mask_and_fmap (f g : row → bool) (df : dataframe) :
  mask_and (f <$> df) (g <$> df) = (λ r, f r && g r) <$> df.
Proof. unfold mask_and. induction df; csimpl; [done|]. by f_equal. Qed.

Lemma mask_select_fmap (f : row → bool) (df : dataframe) :
  mask_select df (f <$> df) = filter (λ r, f r = true) df.
Proof.
  unfold mask_select. induction df as [|r df IH]; csimpl; [done|].
  rewrite filter_cons, (filter_cons (λ x, f x = true)). csimpl.
  destruct (f r) eqn:Hf.
  - rewrite !decide_True by done. csimpl. by f_equal.
  - rewrite !decide_False by done. done.
Qed.

Lemma df_selection_filter (df : dataframe) (s : selection) :
  df_selection df s = filter (λ r, row_passes s r = true) df.
Proof.
  unfold df_selection, isin, column.
  rewrite <- !list_fmap_compose, !mask_and_fmap, mask_select_fmap.
  done.
Qed.

Lemma row_passes_true (s : selection) (r : row) :
  row_passes s r = true ↔
    Organisation_Name r ∈ sel_Organisation_Name s
    ∧ Time_of_day r ∈ sel_Time_of_day s
    ∧ Location r ∈ sel_Location s
    ∧ Capacity_tier r ∈ sel_Capacity_tier s.
Proof.
  unfold row_passes. rewrite !andb_true_iff, !bool_decide_eq_true. tauto.
Qed.

Lemma elem_of_df_selection (df : dataframe) (s : selection) (r : row) :
  r ∈ df_selection df s ↔ r ∈ df ∧ row_passes s r = true.
Proof. rewrite df_selection_filter, list_elem_of_filter. tauto. Qed.

Lemma filter_all {A} (P : A → Prop) `{∀ x, Decision (P x)} (l : list A) :
  Forall P l → filter P l = l.
Proof.
  induction 1 as [|x l Hx _ IH]; [done|].
  rewrite filter_cons, decide_True by done. by f_equal.
Qed.

Lemma filter_none {A} (P : A → Prop) `{∀ x, Decision (P x)} (l : list A) :
  Forall (λ x, ¬ P x) l → filter P l = [].
Proof.
  induction 1 as [|x l Hx _ IH]; [done|].
  by rewrite filter_cons, decide_False.
Qed.

(** C1: when the selection of each of the four filters holds exactly
    the distinct values of its column in the loaded frame, the filtered
    subset is the whole frame. *)
Theorem full_selection_keeps_all (df : dataframe) (s : selection) :
  full_selection df s → df_selection df s = df.
Proof.
  intros (Ho & Ht & Hl & Hc).
  rewrite df_selection_filter. apply filter_all, Forall_forall.
  intros r Hr. apply row_passes_true.
  split_and!; [apply Ho|apply Ht|apply Hl|apply Hc];
    apply elem_of_unique, elem_of_column, Hr.
Qed.

Lemma full_selection_keeps_all_witness :
  full_selection fixture (default_selection fixture)
  ∧ df_selection fixture (default_selection fixture) = fixture.
Proof.
  assert (H : full_selection fixture (default_selection fixture)).
  { by repeat split. }
  split; [exact H|]. exact (full_selection_keeps_all _ _ H).
Defined.

(** C9: the filtered subset is a subsequence of the frame: rows of the
    frame, unchanged, in their original relative order. *)
Theorem df_selection_sublist (df : dataframe) (s : selection) :
  df_selection df s `sublist_of` df.
Proof. rewrite df_selection_filter. apply sublist_filter. Qed.

(** ** Sums and means of fully populated columns *)

Lemma dropna_Fin (l : list Qc) : dropna (Fin <$> l) = Fin <$> l.
Proof.
  unfold dropna. apply filter_all, Forall_fmap, Forall_forall. by intros.
Qed.

Lemma fsum_Fin (l : list Qc) : foldr fadd (Fin 0) (Fin <$> l) = Fin (Qcsum l).
Proof.
  induction l as [|q l IH]; csimpl; [done|]. by rewrite IH.
Qed.

Lemma series_mean_nil : series_mean [] = NaN.
Proof. reflexivity. Qed.

Lemma series_mean_Fin (l : list Qc) :
  l ≠ [] → series_mean (Fin <$> l) = Fin (Qcmean l).
Proof.
  intros Hl. unfold series_mean. rewrite dropna_Fin.
  destruct l as [|q l]; [done|]. csimpl.
  by rewrite fsum_Fin, length_fmap.
Qed.

(** ** Average price per person *)

Lemma truediv_nonzero (p : Qc) (c : Z) :
  c ≠ 0%Z → truediv p c = Fin (p / Qc_of_Z c).
Proof. intros Hc. unfold truediv. by rewrite decide_False. Qed.

(** The element-wise quotient of the two columns holds, row by row,
    the quotient of the row's own price and capacity. *)
Lemma series_div_rowwise (df : dataframe) :
  series_div (column Price_per_hour df) (column Capacity df)
  = (λ r, truediv (Price_per_hour r) (Capacity r)) <$> df.
Proof.
  unfold series_div, column.
  induction df as [|r df IH]; csimpl; [done|]. by rewrite IH.
Qed.

Lemma series_div_nonzero (df : dataframe) :
  Forall (λ r, Capacity r ≠ 0%Z) df →
  series_div (column Price_per_hour df) (column Capacity df)
  = Fin <$> (row_ratio <$> df).
Proof.
  intros Hc. rewrite series_div_rowwise, <- list_fmap_compose.
  apply Forall_fmap_ext_1. eapply Forall_impl; [exact Hc|].
  intros r Hr. by apply truediv_nonzero.
Qed.

Lemma avg_price_per_person_nonzero (df : dataframe) :
  df ≠ [] → Forall (λ r, Capacity r ≠ 0%Z) df →
  avg_price_per_person df = Fin (mean_of_row_ratios df).
Proof.
  intros Hne Hc. unfold avg_price_per_person, mean_of_row_ratios.
  rewrite series_div_nonzero by done.
  apply series_mean_Fin. by destruct df.
Qed.

Lemma Qc_ne_by_this (a b : Qc) : this a ≠ this b → a ≠ b.
Proof. intros H Hab. apply H. by rewrite Hab. Qed.

Lemma fixture_capacities : Forall (λ r, Capacity r ≠ 0%Z) fixture.
Proof.
  unfold fixture. repeat (apply List.Forall_cons; [discriminate|]).
  apply List.Forall_nil.
Qed.

(** The claim fails as worded, for every non-empty subset, on a subset
    with a row of price 0 and capacity 0.  The quotient of that row is
    a missing value and the mean leaves it out: on the two rows of
    [free_room_rows] the metric is 5, the quotient of the second row
    alone, and not the mean over both rows, which is 5/2 when the
    undefined quotient counts as 0 and undefined when it does not. *)
Lemma avg_price_per_person_not_over_all_rows :
  free_room_rows ≠ []
  ∧ avg_price_per_person free_room_rows = Fin (Qc_of_Z 5)
  ∧ avg_price_per_person free_room_rows
    ≠ Fin (mean_of_row_ratios free_room_rows)
  ∧ foldr fadd (Fin 0)
      (series_div (column Price_per_hour free_room_rows)
                  (column Capacity free_room_rows)) = NaN.
Proof.
  assert (avg_price_per_person free_room_rows = Fin (Qc_of_Z 5)) as Hfive.
  { vm_compute. f_equal. apply Qc_is_canon. reflexivity. }
  split_and!; [discriminate|exact Hfive| |reflexivity].
  rewrite Hfive. intros H.
  assert (Qc_of_Z 5 = mean_of_row_ratios free_room_rows) as H'
    by congruence.
  revert H'. apply Qc_ne_by_this. vm_compute. discriminate.
Qed.

(** C3, with the precondition it needs: on a non-empty subset in which
    no row has capacity zero, the metric is the arithmetic mean over
    the rows of the per-row quotient price / capacity (the quotient is
    taken row by row first and the mean second).  It is a different
    quantity from the quotient of the two column means, as the six-row
    fixture shows. *)
Theorem avg_price_per_person_is_mean_of_ratios (df : dataframe) :
  (df ≠ [] → Forall (λ r, Capacity r ≠ 0%Z) df →
   avg_price_per_person df = Fin (mean_of_row_ratios df))
  ∧ ∃ df', df' ≠ [] ∧ Forall (λ r, Capacity r ≠ 0%Z) df'
      ∧ avg_price_per_person df' ≠ Fin (ratio_of_means df').
Proof.
  split.
  - apply avg_price_per_person_nonzero.
  - exists fixture. split_and!; [discriminate|apply fixture_capacities|].
    rewrite avg_price_per_person_nonzero
      by (discriminate || apply fixture_capacities).
    intros H.
    assert (mean_of_row_ratios fixture = ratio_of_means fixture) as H'
      by congruence.
    revert H'. apply Qc_ne_by_this. vm_compute. discriminate.
Qed.

Lemma avg_price_per_person_is_mean_of_ratios_witness :
  avg_price_per_person fixture = Fin (mean_of_row_ratios fixture).
Proof.
  destruct (avg_price_per_person_is_mean_of_ratios fixture) as (H & _).
  apply H.
  - discriminate.
  - unfold fixture. repeat (apply List.Forall_cons; [discriminate|]).
    apply List.Forall_nil.
Defined.

(** C10: when no row of the subset has capacity zero, no quotient of
    the average-price-per-person computation takes the zero-divisor
    branch: every per-row value is the finite quotient price /
    capacity, and the metric itself is finite unless the subset is
    empty. *)
Theorem nonzero_capacity_never_divides_by_zero (df : dataframe) :
  Forall (λ r, Capacity r ≠ 0%Z) df →
  series_div (column Price_per_hour df) (column Capacity df)
    = Fin <$> (row_ratio <$> df)
  ∧ Forall is_finite (series_div (column Price_per_hour df) (column Capacity df))
  ∧ avg_price_per_person df
    = match df with [] => NaN | _ => Fin (mean_of_row_ratios df) end.
Proof.
  intros Hc. split_and!.
  - by apply series_div_nonzero.
  - rewrite series_div_nonzero by done.
    apply Forall_fmap, Forall_forall. by intros.
  - destruct df as [|r df]; [done|].
    by apply avg_price_per_person_nonzero.
Qed.

Lemma nonzero_capacity_never_divides_by_zero_witness :
  series_div (column Price_per_hour fixture) (column Capacity fixture)
    = Fin <$> (row_ratio <$> fixture)
  ∧ Forall is_finite
      (series_div (column Price_per_hour fixture) (column Capacity fixture))
  ∧ avg_price_per_person fixture = Fin (mean_of_row_ratios fixture).
Proof.
  apply (nonzero_capacity_never_divides_by_zero fixture).
  unfold fixture. repeat (apply List.Forall_cons; [discriminate|]).
  apply List.Forall_nil.
Defined.

(** With a zero capacity the quotient is an infinity or NaN; nothing is
    raised, and a NaN quotient is left out of the mean. *)
Example zero_capacity_positive_price :
  truediv (Qc_of_Z 10) 0 = PInf.
Proof. reflexivity. Qed.

Example zero_capacity_zero_price :
  series_mean [truediv 0 0; truediv (Qc_of_Z 10) 2] = Fin (Qc_of_Z 5).
Proof. vm_compute. f_equal. apply Qc_is_canon. reflexivity. Qed.

(** ** The order on text keys is a total order *)

Lemma str_le_refl (s : string) : str_le s s.
Proof.
  unfold str_le, Stdlib.Strings.String.leb.
  induction s as [|c s IH]; simpl; [done|].
  unfold Ascii.compare. by rewrite N.compare_refl.
Qed.

Lemma str_le_trans (a b c : string) : str_le a b → str_le b c → str_le a c.
Proof.
  unfold str_le, Stdlib.Strings.String.leb.
  revert b c. induction a as [|x a IH]; intros [|y b] [|z c]; simpl; try done.
  unfold Ascii.compare.
  destruct (N.compare_spec (Ascii.N_of_ascii x) (Ascii.N_of_ascii y));
    destruct (N.compare_spec (Ascii.N_of_ascii y) (Ascii.N_of_ascii z));
    destruct (N.compare_spec (Ascii.N_of_ascii x) (Ascii.N_of_ascii z));
    try done; try lia.
  apply IH.
Qed.

Global Instance str_le_reflexive : Reflexive str_le := str_le_refl.
Global Instance str_le_transitive : Transitive str_le := str_le_trans.
Global Instance str_le_total : Total str_le.
Proof. intros a b. apply Stdlib.Strings.String.leb_total. Qed.
Global Instance str_le_antisymm : AntiSymm (=) str_le.
Proof. intros a b. apply Stdlib.Strings.String.leb_antisym. Qed.

Global Instance Qcle_antisymm : AntiSymm (=) Qcle.
Proof. intros a b. apply Qcle_antisym. Qed.
Global Instance Qcle_transitive : Transitive Qcle.
Proof. intros a b c. apply Qcle_trans. Qed.

(** ** Groups *)

Section groupby_facts.
Context {K : Type} `{EqDecision K}.
Context (le : relation K) `{∀ x y, Decision (le x y)}.
Context (key : row → K).
Implicit Types (df : dataframe) (k : K).

Lemma group_keys_perm df : group_keys le key df ≡ₚ unique (column key df).
Proof. apply merge_sort_Permutation. Qed.

Lemma NoDup_group_keys df : NoDup (group_keys le key df).
Proof. rewrite group_keys_perm. apply NoDup_unique. Qed.

(** The groups are the key values present in the frame. *)
Lemma elem_of_group_keys df k :
  k ∈ group_keys le key df ↔ k ∈ column key df.
Proof. rewrite group_keys_perm. apply elem_of_unique. Qed.

Lemma elem_of_group_rows df k r :
  r ∈ group_rows key k df ↔ r ∈ df ∧ key r = k.
Proof. unfold group_rows. rewrite list_elem_of_filter. tauto. Qed.

Lemma group_rows_nonempty df k :
  k ∈ group_keys le key df → group_rows key k df ≠ [].
Proof.
  rewrite elem_of_group_keys. intros (r & Hk & Hr)%list_elem_of_fmap Hnil.
  assert (r ∈ group_rows key k df) as Hin by by apply elem_of_group_rows.
  rewrite Hnil in Hin. by apply elem_of_nil in Hin.
Qed.

Lemma group_keys_sorted `{!Transitive le, !Total le} df :
  StronglySorted le (group_keys le key df).
Proof. apply StronglySorted_merge_sort; apply _. Qed.

Lemma groupby_keys df : (groupby le key df).*1 = group_keys le key df.
Proof.
  unfold groupby. rewrite <- list_fmap_compose. apply list_fmap_id.
Qed.

Lemma groupby_mean_keys (val : row → Qc) df :
  (groupby_mean le key val df).*1 = group_keys le key df.
Proof.
  unfold groupby_mean. rewrite <- list_fmap_compose.
  rewrite <- (groupby_keys df). done.
Qed.

(** Each result row of a grouped mean holds a key of the frame and
    the arithmetic mean of the value column over the rows with that
    key. *)
Lemma groupby_mean_spec (val : row → Qc) df :
  groupby_mean le key val df
  = (λ k, (k, Fin (Qcmean (column val (group_rows key k df)))))
      <$> group_keys le key df.
Proof.
  unfold groupby_mean, groupby. rewrite <- list_fmap_compose.
  apply Forall_fmap_ext_1, Forall_forall. intros k Hk. simpl.
  f_equal. apply series_mean_Fin.
  apply group_rows_nonempty in Hk. unfold column.
  by destruct (group_rows key k df).
Qed.

Lemma elem_of_groupby_mean (val : row → Qc) df k m :
  (k, m) ∈ groupby_mean le key val df ↔
    k ∈ column key df ∧ m = Fin (Qcmean (column val (group_rows key k df))).
Proof.
  rewrite groupby_mean_spec, list_elem_of_fmap.
  setoid_rewrite elem_of_group_keys. split.
  - intros (k' & [= -> ->] & Hk). done.
  - intros [Hk ->]. by exists k.
Qed.

End groupby_facts.

(** ** Duration series *)

Lemma StronglySorted_Qclt (l : list Qc) :
  StronglySorted Qcle l → NoDup l → StronglySorted Qclt l.
Proof.
  induction 1 as [|x l Hl IH Hx]; intros Hnd; [constructor|].
  apply NoDup_cons in Hnd as [Hxl Hnd].
  constructor; [by apply IH|].
  apply Forall_forall. intros y Hy.
  rewrite Forall_forall in Hx.
  destruct (Qcle_lt_or_eq _ _ (Hx y Hy)) as [?| ->]; done.
Qed.

(** C7: the duration series has one entry per Minimum Duration value
    of the subset, each holding the mean Price per Hour of the rows
    with that duration, and the entries come in ascending order of
    duration. *)
Theorem duration_series_grouped_and_ascending (df : dataframe) :
  StronglySorted Qclt (avg_price_by_duration df).*1
  ∧ (∀ d, d ∈ (avg_price_by_duration df).*1
          ↔ d ∈ column Minimum_Duration_per_hour df)
  ∧ (∀ d m, (d, m) ∈ avg_price_by_duration df
          ↔ d ∈ column Minimum_Duration_per_hour df
            ∧ m = Fin (Qcmean (column Price_per_hour
                  (filter (λ r, Minimum_Duration_per_hour r = d) df)))).
Proof.
  unfold avg_price_by_duration. rewrite groupby_mean_keys. split_and!.
  - apply StronglySorted_Qclt.
    + apply group_keys_sorted; apply _.
    + apply NoDup_group_keys.
  - intros d. apply elem_of_group_keys.
  - intros d m. apply elem_of_groupby_mean.
Qed.

(** ** Empty selections *)

Lemma df_selection_empty (df : dataframe) (s : selection) :
  empty_on_some_column s → df_selection df s = [].
Proof.
  intros Hs. rewrite df_selection_filter. apply filter_none, Forall_forall.
  intros r _ (Ho & Ht & Hl & Hc)%row_passes_true.
  destruct Hs as [Hs|[Hs|[Hs|Hs]]]; rewrite Hs in *;
    eapply elem_of_nil; eassumption.
Qed.

Lemma argsort_spec_nil (argsort : list Qc → list nat) :
  argsort_spec argsort → argsort [] = [].
Proof. intros Hspec. destruct (Hspec []) as [Hp _]. by apply Permutation_nil_r. Qed.

Lemma top_rooms_nil (argsort : list Qc → list nat) :
  argsort_spec argsort → top_rooms argsort [] = Some [].
Proof.
  intros Hspec. pose proof (argsort_spec_nil _ Hspec) as E.
  unfold top_rooms, sort_values_desc, nargsort_desc, column.
  change (reverse (Price_per_hour <$> [])) with (@nil Qc).
  by rewrite E.
Qed.

(** ** Positional indexing *)

Lemma take_idx_Some {A} (l : list A) (idx : list nat) (l' : list A) :
  take_idx l idx = Some l' ↔ Forall2 (λ i x, l !! i = Some x) idx l'.
Proof. apply mapM_Some. Qed.

Lemma take_idx_seq {A} (l : list A) : take_idx l (seq 0 (length l)) = Some l.
Proof.
  apply take_idx_Some, Forall2_same_length_lookup_2.
  - by rewrite length_seq.
  - intros i x y [-> _]%lookup_seq Hy. done.
Qed.

Lemma Forall2_perm_l {A B} (P : A → B → Prop) (l1 l2 : list A) (k2 : list B) :
  l1 ≡ₚ l2 → Forall2 P l2 k2 → ∃ k1, Forall2 P l1 k1 ∧ k1 ≡ₚ k2.
Proof.
  intros Hp. revert k2.
  induction Hp as [|x l1 l2 _ IH|x y l|l1 l2 l3 _ IH1 _ IH2]; intros k2 Hk.
  - apply Forall2_nil_inv_l in Hk as ->. by exists [].
  - apply Forall2_cons_inv_l in Hk as (b & k' & Hb & Hk' & ->).
    destruct (IH _ Hk') as (k1 & ? & ?).
    exists (b :: k1). split; [by constructor|by constructor].
  - apply Forall2_cons_inv_l in Hk as (b & k' & Hb & Hk' & ->).
    apply Forall2_cons_inv_l in Hk' as (c & k'' & Hc & Hk'' & ->).
    exists (c :: b :: k''). split; [by repeat constructor|constructor].
  - destruct (IH2 _ Hk) as (k' & Hk' & ?).
    destruct (IH1 _ Hk') as (k1 & ? & ?).
    exists k1. split; [done|by etrans].
Qed.

(** Indexing with a rearrangement of all positions rearranges the
    list, and cannot fail. *)
Lemma take_idx_perm {A} (l : list A) (idx : list nat) :
  idx ≡ₚ seq 0 (length l) → ∃ l', take_idx l idx = Some l' ∧ l' ≡ₚ l.
Proof.
  intros Hp.
  destruct (Forall2_perm_l _ _ _ l Hp (proj1 (take_idx_Some _ _ _) (take_idx_seq l)))
    as (l' & Hl' & Hperm).
  exists l'. split; [by apply take_idx_Some|done].
Qed.

Lemma take_idx_reverse {A} (l : list A) (idx : list nat) (l' : list A) :
  take_idx l idx = Some l' → take_idx l (reverse idx) = Some (reverse l').
Proof. rewrite !take_idx_Some. apply Forall2_reverse. Qed.

Lemma take_idx_fmap {A B} (f : A → B) (l : list A) (idx : list nat) (l' : list A) :
  take_idx l idx = Some l' → take_idx (f <$> l) idx = Some (f <$> l').
Proof.
  rewrite !take_idx_Some. intros H. apply Forall2_fmap_r.
  eapply Forall2_impl; [exact H|]. intros i x Hx. simpl.
  by rewrite list_lookup_fmap, Hx.
Qed.

(** Reading the reversed keys through positions [a] is reading the
    keys through the positions that [a] selects in the reversed
    position list. *)
Lemma take_idx_through_reverse {A} (k : list A) (a X : list nat) (ks : list A) :
  take_idx (reverse (seq 0 (length k))) a = Some X →
  take_idx (reverse k) a = Some ks →
  take_idx k X = Some ks.
Proof.
  rewrite !take_idx_Some. intros HX. revert ks.
  induction HX as [|j x a X Hj _ IH]; intros ks Hks.
  - apply Forall2_nil_inv_l in Hks as ->. constructor.
  - apply Forall2_cons_inv_l in Hks as (q & ks' & Hq & Hks' & ->).
    constructor; [|by apply IH].
    apply reverse_lookup_Some in Hj as [Hj Hlt].
    apply reverse_lookup_Some in Hq as [Hq _].
    rewrite length_seq in Hj, Hlt.
    apply lookup_seq in Hj as [-> _]. done.
Qed.

(** ** Sorting by a column *)

Lemma StronglySorted_reverse {A} (R : relation A) `{!Transitive R} (l : list A) :
  StronglySorted R l → StronglySorted (flip R) (reverse l).
Proof.
  intros Hs. apply Sorted_StronglySorted.
  - intros x y z Hxy Hyz. unfold flip in *. by etrans.
  - by apply Sorted_reverse, StronglySorted_Sorted.
Qed.

Lemma StronglySorted_fmap_inv {A B} (f : A → B) (R : relation B) (l : list A) :
  StronglySorted R (f <$> l) → StronglySorted (λ x y, R (f x) (f y)) l.
Proof.
  induction l as [|x l IH]; csimpl; intros Hs; [constructor|].
  apply StronglySorted_inv in Hs as [Hs Hx].
  constructor; [by apply IH|].
  exact (proj1 (Forall_fmap f (R (f x)) l) Hx).
Qed.

Section sort_values_facts.
Variable argsort : list Qc → list nat.
Hypothesis argsort_ok : argsort_spec argsort.

Lemma nargsort_desc_spec (k : list Qc) :
  ∃ indexer ks,
    nargsort_desc argsort k = Some indexer
    ∧ indexer ≡ₚ seq 0 (length k)
    ∧ take_idx k indexer = Some ks
    ∧ StronglySorted (flip Qcle) ks.
Proof.
  destruct (argsort_ok (reverse k)) as [Hperm Hsorted].
  rewrite length_reverse in Hperm.
  destruct (take_idx_perm (reverse (seq 0 (length k))) (argsort (reverse k)))
    as (X & HX & HXp).
  { by rewrite length_reverse, length_seq. }
  destruct (take_idx_perm (reverse k) (argsort (reverse k)))
    as (ks & Hks & _).
  { by rewrite length_reverse. }
  exists (reverse X), (reverse ks). split_and!.
  - unfold nargsort_desc. by rewrite HX.
  - by rewrite reverse_Permutation, HXp, reverse_Permutation.
  - apply take_idx_reverse. by eapply take_idx_through_reverse.
  - apply StronglySorted_reverse; [apply _|]. by apply Hsorted.
Qed.

(** Sorting by a column in descending order succeeds, rearranges
    the rows, and leaves the column descending. *)
Lemma sort_values_desc_spec (key : row → Qc) (df : dataframe) :
  ∃ l, sort_values_desc argsort key df = Some l
       ∧ l ≡ₚ df
       ∧ StronglySorted (λ a b, key b ≤ key a) l.
Proof.
  destruct (nargsort_desc_spec (column key df))
    as (indexer & ks & Hn & Hp & Hks & Hsorted).
  unfold column in Hp. rewrite length_fmap in Hp.
  destruct (take_idx_perm df indexer Hp) as (l & Hl & Hlp).
  exists l. split_and!; [|done|].
  - unfold sort_values_desc. by rewrite Hn.
  - apply (take_idx_fmap key) in Hl. unfold column in Hks.
    assert (ks = key <$> l) as -> by congruence.
    by apply StronglySorted_fmap_inv in Hsorted.
Qed.
End sort_values_facts.

(** ** The two sorting kernels meet the kernel contract *)

Global Instance key_idx_le_total keep : Total (key_idx_le keep).
Proof.
  intros [q i] [q' j]. unfold key_idx_le. simpl.
  destruct (Qclt_le_dec q q') as [Hlt|Hle]; [by left; left|].
  destruct (Qcle_lt_or_eq _ _ Hle) as [Hlt| ->]; [by right; left|].
  destruct (Nat.le_ge_cases i j); destruct keep; auto.
Qed.

Global Instance key_idx_le_transitive keep : Transitive (key_idx_le keep).
Proof.
  intros [q1 i1] [q2 i2] [q3 i3]. unfold key_idx_le. simpl.
  intros [H1|[-> H1]] [H2|[-> H2]].
  - left. by etrans.
  - by left.
  - by left.
  - right. split; [done|]. destruct keep; lia.
Qed.

Lemma key_idx_le_key keep (a b : Qc * nat) : key_idx_le keep a b → a.1 ≤ b.1.
Proof.
  intros [H|[-> _]]; [by apply Qclt_le_weak|apply Qcle_refl].
Qed.

Lemma zip_positions {A} (k : list A) :
  Forall (λ p, k !! p.2 = Some p.1) (zip k (seq 0 (length k))).
Proof.
  apply Forall_forall. intros [q i] (j & Hj)%list_elem_of_lookup.
  apply lookup_zip_with_Some in Hj as (x & y & [= -> ->] & Hx & Hy).
  apply lookup_seq in Hy as [-> _]. done.
Qed.

Lemma argsort_with_spec keep : argsort_spec (argsort_with keep).
Proof.
  intros k. unfold argsort_with. split.
  - rewrite merge_sort_Permutation. rewrite snd_zip; [done|].
    by rewrite length_seq.
  - intros ks Hks.
    assert (take_idx k (merge_sort (key_idx_le keep) (zip k (seq 0 (length k)))).*2
            = Some (merge_sort (key_idx_le keep) (zip k (seq 0 (length k)))).*1) as E.
    { apply take_idx_Some, Forall2_fmap, Forall_Forall2_diag.
      rewrite merge_sort_Permutation. apply zip_positions. }
    assert (ks = (merge_sort (key_idx_le keep) (zip k (seq 0 (length k)))).*1)
      as -> by congruence.
    eapply StronglySorted_fmap; [apply key_idx_le_key|].
    apply StronglySorted_merge_sort; apply _.
Qed.

(** ** The vectorised kernel on short inputs is a sort *)

Lemma cmp_merge_01 (x0 x1 x2 x3 : lane) :
  cmp_merge [x0; x1; x2; x3] (0, 1)%nat
  = if lane_lt x1 x0 then [x1; x0; x2; x3] else [x0; x1; x2; x3].
Proof. reflexivity. Qed.

Lemma cmp_merge_23 (x0 x1 x2 x3 : lane) :
  cmp_merge [x0; x1; x2; x3] (2, 3)%nat
  = if lane_lt x3 x2 then [x0; x1; x3; x2] else [x0; x1; x2; x3].
Proof. reflexivity. Qed.

Lemma cmp_merge_03 (x0 x1 x2 x3 : lane) :
  cmp_merge [x0; x1; x2; x3] (0, 3)%nat
  = if lane_lt x3 x0 then [x3; x1; x2; x0] else [x0; x1; x2; x3].
Proof. reflexivity. Qed.

Lemma cmp_merge_12 (x0 x1 x2 x3 : lane) :
  cmp_merge [x0; x1; x2; x3] (1, 2)%nat
  = if lane_lt x2 x1 then [x0; x2; x1; x3] else [x0; x1; x2; x3].
Proof. reflexivity. Qed.

Ltac network_round :=
  first [rewrite cmp_merge_01 | rewrite cmp_merge_23
        | rewrite cmp_merge_03 | rewrite cmp_merge_12];
  cbn [lane_lt fst]; try case_bool_decide.

(** Whatever the keys, the three rounds leave the positions of up to
    four keys arranged so that the keys ascend. *)
Lemma argsort_register_spec (k : list Qc) :
  (length k ≤ 4)%nat →
  argsort_register k ≡ₚ seq 0 (length k)
  ∧ ∀ ks, take_idx k (argsort_register k) = Some ks → StronglySorted Qcle ks.
Proof.
  intros Hlen.
  destruct k as [|a [|b [|c [|d [|e k]]]]]; [..|simpl in Hlen; lia].
  all: unfold argsort_register, sort_ymm_64bit.
  all: cbn [length seq zip_with fmap list_fmap app replicate take foldl].
  all: repeat network_round.
  all: split; [by apply (bool_decide_unpack _)|].
  all: intros ks [= <-].
  all: repeat first [apply SSorted_nil | apply SSorted_cons
                    | apply List.Forall_nil | apply List.Forall_cons].
  all: unfold Qcle, Qclt in *; lra.
Qed.

Lemma argsort_vectorised_spec : argsort_spec argsort_vectorised.
Proof.
  intros k. unfold argsort_vectorised.
  destruct (decide (length k ≤ 4)%nat).
  - by apply argsort_register_spec.
  - apply argsort_with_spec.
Qed.

(** C2: when the selection is empty on one of the four columns, the
    filtered subset is empty and every view is in its no-data state:
    the grouped tables have no row, the two scalar means are NaN (the
    missing-value marker, not an error), the pivot has no row and no
    column, the top-5 is the empty table, and the duration series has
    no entry.  All of them are produced; none fails. *)
Theorem empty_selection_no_data
    (argsort : list Qc → list nat) (df : dataframe) (s : selection) :
  argsort_spec argsort → empty_on_some_column s →
  df_selection df s = []
  ∧ avg_price_by_tier (df_selection df s) = []
  ∧ avg_price_per_hour (df_selection df s) = NaN
  ∧ avg_price_per_person (df_selection df s) = NaN
  ∧ avg_price_by_time (df_selection df s) = []
  ∧ heatmap_data (df_selection df s) = Pivot [] [] []
  ∧ top_rooms argsort (df_selection df s) = Some []
  ∧ avg_price_by_duration (df_selection df s) = [].
Proof.
  intros Hspec Hs. rewrite (df_selection_empty df s Hs).
  split_and!; try reflexivity. by apply top_rooms_nil.
Qed.

Lemma empty_selection_no_data_witness :
  let s := Selection ["Central"] [] ["North"] ["Small"] in
  df_selection fixture s = []
  ∧ avg_price_by_tier (df_selection fixture s) = []
  ∧ avg_price_per_hour (df_selection fixture s) = NaN
  ∧ avg_price_per_person (df_selection fixture s) = NaN
  ∧ avg_price_by_time (df_selection fixture s) = []
  ∧ heatmap_data (df_selection fixture s) = Pivot [] [] []
  ∧ top_rooms argsort_stable (df_selection fixture s) = Some []
  ∧ avg_price_by_duration (df_selection fixture s) = [].
Proof.
  apply (empty_selection_no_data argsort_stable fixture).
  - apply argsort_with_spec.
  - right. left. reflexivity.
Defined.

(** ** Stable kernels *)

Lemma StronglySorted_filter {A} (R : relation A) (P : A → Prop)
    `{∀ x, Decision (P x)} (l : list A) :
  StronglySorted R l → StronglySorted R (filter P l).
Proof.
  induction 1 as [|x l Hl IH Hx]; [constructor|].
  rewrite filter_cons. destruct (decide (P x)); [|done].
  constructor; [done|].
  apply Forall_forall. intros y [_ Hy]%list_elem_of_filter.
  rewrite Forall_forall in Hx. by apply Hx.
Qed.

Lemma StronglySorted_fmap_strong {A B} (f : A → B)
    (R1 : relation A) (R2 : relation B) (l : list A) :
  (∀ x y, x ∈ l → y ∈ l → R1 x y → R2 (f x) (f y)) →
  StronglySorted R1 l → StronglySorted R2 (f <$> l).
Proof.
  intros Hf Hs. induction Hs as [|x l Hl IH Hx]; csimpl; [constructor|].
  constructor.
  - apply IH. intros y z Hy Hz. apply Hf; by right.
  - apply Forall_fmap, Forall_forall. intros y Hy. simpl.
    rewrite Forall_forall in Hx. apply Hf; [left|by right|by apply Hx].
Qed.

Lemma StronglySorted_seq (s n : nat) : StronglySorted Nat.le (seq s n).
Proof.
  revert s. induction n as [|n IH]; intros s; simpl; constructor; [apply IH|].
  apply Forall_forall. intros i Hi%elem_of_seq. lia.
Qed.

(** An insertion that goes through equal keys in order of position is
    stable. *)
Lemma argsort_stable_keeps_ties : argsort_keeps_ties argsort_stable.
Proof.
  intros k q. unfold argsort_stable, argsort_with.
  set (L := merge_sort (key_idx_le true) (zip k (seq 0 (length k)))).
  assert (Forall (λ p, k !! p.2 = Some p.1) L) as Hpos.
  { unfold L. rewrite merge_sort_Permutation. apply zip_positions. }
  rewrite Forall_forall in Hpos.
  apply (StronglySorted_unique Nat.le).
  - rewrite <- (list_fmap_id (filter _ (L.*2))).
    apply (StronglySorted_fmap_strong id
      (λ i j, ∀ a b, k !! i = Some a → k !! j = Some b →
                     a < b ∨ (a = b ∧ (i ≤ j)%nat))).
    + intros i j [Hi _]%list_elem_of_filter [Hj _]%list_elem_of_filter Hij.
      destruct (Hij q q Hi Hj) as [Hlt|[_ Hle]]; [|done].
      by apply Qclt_not_eq in Hlt.
    + apply StronglySorted_filter.
      apply (StronglySorted_fmap_strong snd (key_idx_le true)).
      * intros [a i] [b j] Ha%Hpos Hb%Hpos Hab a' b' Ha' Hb'. simpl in *.
        assert (a' = a) as -> by congruence.
        assert (b' = b) as -> by congruence.
        exact Hab.
      * unfold L. apply StronglySorted_merge_sort; apply _.
  - apply StronglySorted_filter, StronglySorted_seq.
  - apply filter_Permutation. unfold L.
    rewrite merge_sort_Permutation, snd_zip; [done|]. by rewrite length_seq.
Qed.

(** Insertion into a descending list, in front of the equal keys. *)
Lemma insert_desc_filter (key : row → Qc) (r : row) (l : dataframe) (q : Qc) :
  filter (λ x, key x = q) (insert_desc key r l)
  = if decide (key r = q) then r :: filter (λ x, key x = q) l
    else filter (λ x, key x = q) l.
Proof.
  induction l as [|x l IH]; simpl.
  - rewrite filter_cons, filter_nil. done.
  - destruct (decide (key r < key x)) as [Hlt|Hge].
    + rewrite (filter_cons _ x (insert_desc key r l)), (filter_cons _ x l), IH.
      destruct (decide (key r = q)) as [Hr|]; [|done].
      destruct (decide (key x = q)) as [Hx|]; [|done].
      apply Qclt_not_eq in Hlt. congruence.
    + by rewrite (filter_cons _ r).
Qed.

Lemma insert_desc_perm (key : row → Qc) (r : row) (l : dataframe) :
  insert_desc key r l ≡ₚ r :: l.
Proof.
  induction l as [|x l IH]; simpl; [done|].
  destruct (decide (key r < key x)); [|done].
  rewrite IH. apply Permutation_swap.
Qed.

Lemma insert_desc_sorted (key : row → Qc) (r : row) (l : dataframe) :
  StronglySorted (λ a b, key b ≤ key a) l →
  StronglySorted (λ a b, key b ≤ key a) (insert_desc key r l).
Proof.
  induction 1 as [|x l Hl IH Hx]; simpl; [repeat constructor|].
  destruct (decide (key r < key x)) as [Hlt|Hge].
  - constructor; [done|]. rewrite insert_desc_perm.
    constructor; [by apply Qclt_le_weak|done].
  - apply Qcnot_lt_le in Hge.
    constructor; [by constructor|].
    constructor; [done|].
    eapply Forall_impl; [exact Hx|]. intros y Hy. simpl in *. by etrans.
Qed.

Lemma stable_sort_desc_sorted (key : row → Qc) (df : dataframe) :
  StronglySorted (λ a b, key b ≤ key a) (stable_sort_desc key df).
Proof.
  induction df as [|r df IH]; simpl; [constructor|].
  by apply insert_desc_sorted.
Qed.

Lemma stable_sort_desc_filter (key : row → Qc) (df : dataframe) (q : Qc) :
  filter (λ x, key x = q) (stable_sort_desc key df) = filter (λ x, key x = q) df.
Proof.
  induction df as [|r df IH]; simpl; [done|].
  rewrite insert_desc_filter, IH, filter_cons. done.
Qed.

(** A descending arrangement is determined by the order it gives to
    the rows of each key value. *)
Lemma stable_sorted_unique (key : row → Qc) (l1 l2 : dataframe) :
  StronglySorted (λ a b, key b ≤ key a) l1 →
  StronglySorted (λ a b, key b ≤ key a) l2 →
  (∀ q, filter (λ r, key r = q) l1 = filter (λ r, key r = q) l2) →
  l1 = l2.
Proof.
  revert l2. induction l1 as [|x l1 IH]; intros l2 H1 H2 Hf.
  - destruct l2 as [|y l2]; [done|]. specialize (Hf (key y)).
    rewrite filter_nil, filter_cons, decide_True in Hf by done. done.
  - destruct l2 as [|y l2].
    { specialize (Hf (key x)).
      rewrite filter_nil, filter_cons, decide_True in Hf by done. done. }
    apply StronglySorted_inv in H1 as [H1 Hx].
    apply StronglySorted_inv in H2 as [H2 Hy].
    rewrite Forall_forall in Hx, Hy.
    assert (key x = key y) as Hk.
    { apply Qcle_antisym.
      - assert (x ∈ y :: l2) as Hin.
        { eapply (proj1 (list_elem_of_filter (λ r, key r = key x) _ _)).
          rewrite <- Hf. apply list_elem_of_filter. split; [done|left]. }
        apply elem_of_cons in Hin as [->|Hin]; [apply Qcle_refl|by apply Hy].
      - assert (y ∈ x :: l1) as Hin.
        { eapply (proj1 (list_elem_of_filter (λ r, key r = key y) _ _)).
          rewrite Hf. apply list_elem_of_filter. split; [done|left]. }
        apply elem_of_cons in Hin as [->|Hin]; [apply Qcle_refl|by apply Hx]. }
    pose proof (Hf (key x)) as E.
    rewrite (filter_cons _ x), (filter_cons _ y) in E.
    rewrite decide_True in E by done.
    rewrite decide_True in E by done.
    assert (x = y) as -> by congruence.
    f_equal. apply IH; [done|done|].
    intros q. specialize (Hf q).
    rewrite (filter_cons _ y l1), (filter_cons _ y l2) in Hf.
    destruct (decide (key y = q)); [congruence|done].
Qed.

(** Filtering the positions by the value they address filters the
    values read through them. *)
Lemma take_idx_filter {A} (m : list A) (P : nat → Prop) (Q : A → Prop)
    `{∀ i, Decision (P i)} `{∀ y, Decision (Q y)} (I : list nat) (Y : list A) :
  (∀ i y, m !! i = Some y → (P i ↔ Q y)) →
  take_idx m I = Some Y → take_idx m (filter P I) = Some (filter Q Y).
Proof.
  intros HPQ. rewrite !take_idx_Some.
  induction 1 as [|i y I Y Hi _ IH]; [constructor|].
  rewrite !filter_cons. destruct (decide (P i)) as [Hp|Hp].
  - rewrite decide_True by (by apply (HPQ i y)). by constructor.
  - rewrite decide_False; [done|]. by rewrite <- (HPQ i y).
Qed.

Section stable_sort_values.
Variable argsort : list Qc → list nat.
Hypothesis argsort_ok : argsort_spec argsort.
Hypothesis argsort_stable_ok : argsort_keeps_ties argsort.

(** Through the reverse-sort-reverse wrapper a stable kernel gives
    positions in which each key value keeps its original order. *)
Lemma nargsort_desc_keeps_ties (k : list Qc) (q : Qc) (indexer : list nat) :
  nargsort_desc argsort k = Some indexer →
  filter (λ i, k !! i = Some q) indexer
  = filter (λ i, k !! i = Some q) (seq 0 (length k)).
Proof.
  unfold nargsort_desc.
  destruct (take_idx _ (argsort (reverse k))) as [X|] eqn:HX; [|done].
  simpl. intros [= <-].
  assert (∀ j x, reverse (seq 0 (length k)) !! j = Some x →
                 (reverse k !! j = Some q ↔ k !! x = Some q)) as Hrel.
  { intros j x [Hj Hlt]%reverse_lookup_Some.
    rewrite length_seq in Hj, Hlt. apply lookup_seq in Hj as [-> _].
    rewrite reverse_lookup by done. done. }
  pose proof (take_idx_filter _ (λ j, reverse k !! j = Some q)
                (λ x, k !! x = Some q) _ _ Hrel HX) as H1.
  rewrite argsort_stable_ok, length_reverse in H1.
  pose proof (take_idx_seq (reverse (seq 0 (length k)))) as Hseq.
  rewrite length_reverse, length_seq in Hseq.
  pose proof (take_idx_filter _ (λ j, reverse k !! j = Some q)
                (λ x, k !! x = Some q) _ _ Hrel Hseq) as H2.
  rewrite filter_reverse.
  assert (filter (λ x, k !! x = Some q) X
          = filter (λ x, k !! x = Some q) (reverse (seq 0 (length k)))) as ->
    by congruence.
  by rewrite filter_reverse, reverse_involutive.
Qed.

(** With a stable kernel, sorting by a column in descending order is
    the stable descending sort. *)
Lemma sort_values_desc_stable (key : row → Qc) (df : dataframe) :
  sort_values_desc argsort key df = Some (stable_sort_desc key df).
Proof.
  destruct (sort_values_desc_spec argsort argsort_ok key df)
    as (l & Hl & _ & Hsorted).
  rewrite Hl. f_equal.
  apply (stable_sorted_unique key); [done|apply stable_sort_desc_sorted|].
  intros q. rewrite stable_sort_desc_filter.
  unfold sort_values_desc in Hl.
  destruct (nargsort_desc argsort (column key df)) as [indexer|] eqn:Hn; [|done].
  simpl in Hl.
  pose proof (nargsort_desc_keeps_ties _ q _ Hn) as Hties.
  assert (∀ i r, df !! i = Some r →
                 (column key df !! i = Some q ↔ key r = q)) as Hrel.
  { intros i r Hi. unfold column. rewrite list_lookup_fmap, Hi. simpl.
    split; congruence. }
  pose proof (take_idx_filter _ (λ i, column key df !! i = Some q)
                (λ r, key r = q) _ _ Hrel Hl) as H1.
  pose proof (take_idx_filter _ (λ i, column key df !! i = Some q)
                (λ r, key r = q) _ _ Hrel (take_idx_seq df)) as H2.
  assert (length (column key df) = length df) as Hlen by apply length_fmap.
  rewrite Hties, Hlen in H1. congruence.
Qed.

(** With a stable kernel the top-5 is the one the specification
    describes. *)
Lemma top_rooms_stable (df : dataframe) :
  top_rooms argsort df = Some (spec_top5 df).
Proof. unfold top_rooms. by rewrite sort_values_desc_stable. Qed.
End stable_sort_values.

(** ** The five dearest rooms *)

(** C5, as the code has it: the top-5 is always produced; it is the
    first five rows (all rows when there are at most five) of a
    rearrangement of the subset in descending order of Price per Hour.
    Which of several rows with the same price comes first is left to
    the sorting kernel: when the kernel keeps equal keys in order, the
    arrangement is the stable descending sort of the specification. *)
Theorem top_rooms_sorted_prefix (argsort : list Qc → list nat) (df : dataframe) :
  argsort_spec argsort →
  ∃ sorted,
    sorted ≡ₚ df
    ∧ StronglySorted (λ a b, Price_per_hour b ≤ Price_per_hour a) sorted
    ∧ top_rooms argsort df = Some (take 5 sorted)
    ∧ ((length df ≤ 5)%nat → top_rooms argsort df = Some sorted)
    ∧ (argsort_keeps_ties argsort →
       sorted = stable_sort_desc Price_per_hour df).
Proof.
  intros Hspec.
  destruct (sort_values_desc_spec argsort Hspec Price_per_hour df)
    as (l & Hl & Hp & Hsorted).
  exists l. split_and!; [done|done| | |].
  - unfold top_rooms. by rewrite Hl.
  - intros Hlen. unfold top_rooms. rewrite Hl. simpl.
    rewrite take_ge; [done|]. by rewrite Hp.
  - intros Hties.
    rewrite (sort_values_desc_stable argsort Hspec Hties) in Hl. congruence.
Qed.

Lemma top_rooms_sorted_prefix_witness :
  top_rooms argsort_stable tie_fixture
  = Some (stable_sort_desc Price_per_hour tie_fixture).
Proof.
  destruct (top_rooms_sorted_prefix argsort_stable tie_fixture
              (argsort_with_spec true))
    as (sorted & _ & _ & _ & Hall & Hstable).
  rewrite Hall by (simpl; lia).
  f_equal. apply Hstable, argsort_stable_keeps_ties.
Defined.

(** The claim fails as worded on four rooms at two prices, A and B at
    30 and C and D at 45.  [sort_values] hands the prices to the kernel
    in reverse row order, 45 45 30 30.  The first round of the kernel
    finds both pairs of neighbours equal; the second exchanges lanes 0
    and 3 and lanes 1 and 2, which puts the prices in ascending order
    and the positions in the order 3 2 1 0; the third finds equal
    neighbours again.  The rooms come out as D, C, B, A: descending by
    price, but each pair of equally priced rooms in the reverse of the
    row order, where the stable sort of the claim gives C, D, A, B.
    The kernel is a sort all the same: it meets the contract under
    which the sorted-prefix statement above is proved. *)
Lemma top_rooms_ties_not_stable :
  argsort_spec argsort_vectorised
  ∧ argsort_vectorised (reverse (column Price_per_hour two_price_rooms))
    = [3; 2; 1; 0]%nat
  ∧ Names_of_Room <$> default [] (top_rooms argsort_vectorised two_price_rooms)
    = ["D"; "C"; "B"; "A"]
  ∧ Names_of_Room <$> spec_top5 two_price_rooms = ["C"; "D"; "A"; "B"]
  ∧ top_rooms argsort_vectorised two_price_rooms
    ≠ Some (spec_top5 two_price_rooms).
Proof.
  split_and!; [apply argsort_vectorised_spec|vm_compute; reflexivity..|].
  intros H.
  apply (f_equal (λ o, Names_of_Room <$> default [] o)) in H.
  vm_compute in H. discriminate.
Qed.

(** On two rooms of equal price the same kernel finds nothing to
    exchange, and they come out in row order. *)
Example top_rooms_two_equal_rooms :
  Names_of_Room <$> default [] (top_rooms argsort_vectorised tie_fixture)
  = ["Nave"; "Crypt"].
Proof. vm_compute. reflexivity. Qed.

(** ** Pivot table *)

Lemma assoc_graph {K V} `{EqDecision K} (v : K → V) (ks : list K) (k : K) :
  assoc k ((λ k', (k', v k')) <$> ks)
  = if decide (k ∈ ks) then Some (v k) else None.
Proof.
  unfold assoc.
  destruct (list_find _ _) as [[i [k' x]]|] eqn:E; simpl.
  - apply list_find_Some in E as (Hl & Hk & _). simpl in Hk. subst k'.
    rewrite list_lookup_fmap in Hl.
    destruct (ks !! i) as [k''|] eqn:Hi; [|done].
    simpl in Hl. injection Hl as -> ->.
    rewrite decide_True; [done|]. by eapply list_elem_of_lookup_2.
  - apply list_find_None in E. rewrite decide_False; [done|].
    intros Hin. rewrite Forall_fmap, Forall_forall in E. by apply (E k Hin).
Qed.

Lemma label_pos_Some (l : string) (axis : list string) (i : nat) :
  label_pos l axis = Some i → axis !! i = Some l.
Proof.
  unfold label_pos. destruct (list_find _ _) as [[j x]|] eqn:E; [|done].
  simpl. intros [= ->]. by apply list_find_Some in E as (? & -> & _).
Qed.

Lemma label_pos_None (l : string) (axis : list string) :
  label_pos l axis = None → l ∉ axis.
Proof.
  unfold label_pos. destruct (list_find _ _) as [[j x]|] eqn:E; [done|].
  intros _ Hin. apply list_find_None in E. rewrite Forall_forall in E.
  by apply (E l Hin).
Qed.

(** Addressing a cell of a grid built from a cell function. *)
Lemma pivot_loc_grid (index columns : list string)
    (cell : string → string → fval) (t d : string) :
  pivot_loc (Pivot index columns ((λ t, (λ d, cell t d) <$> columns) <$> index)) t d
  = if decide (t ∈ index ∧ d ∈ columns) then Some (cell t d) else None.
Proof.
  unfold pivot_loc. simpl.
  destruct (label_pos t index) as [i|] eqn:Hi; simpl.
  - apply label_pos_Some in Hi.
    destruct (label_pos d columns) as [j|] eqn:Hj; simpl.
    + apply label_pos_Some in Hj.
      rewrite list_lookup_fmap, Hi. simpl. rewrite list_lookup_fmap, Hj. simpl.
      rewrite decide_True; [done|].
      split; by eapply list_elem_of_lookup_2.
    + apply label_pos_None in Hj. rewrite decide_False; [done|]. tauto.
  - apply label_pos_None in Hi. rewrite decide_False; [done|]. tauto.
Qed.

Section pivot_facts.
Context (idx col : row → string) (val : row → Qc).
Implicit Types (df : dataframe) (t d : string).

Lemma elem_of_pair_keys df t d :
  (t, d) ∈ group_keys pair_le (λ r, (idx r, col r)) df
  ↔ group_rows (λ r, (idx r, col r)) (t, d) df ≠ [].
Proof.
  rewrite elem_of_group_keys. split.
  - intros (r & Hk & Hr)%list_elem_of_fmap Hnil.
    assert (r ∈ group_rows (λ r, (idx r, col r)) (t, d) df) as Hin
      by by apply elem_of_group_rows.
    rewrite Hnil in Hin. by apply elem_of_nil in Hin.
  - destruct (group_rows _ _ _) as [|r rows] eqn:E; [done|]. intros _.
    assert (r ∈ group_rows (λ r, (idx r, col r)) (t, d) df) as Hin
      by (rewrite E; left).
    apply elem_of_group_rows in Hin as [Hin <-].
    by apply (elem_of_column (λ r, (idx r, col r))).
Qed.

(** The aggregated table, after the all-missing groups are dropped
    (there are none), is the graph of the group mean on the pairs of
    labels present. *)
Lemma pivot_agged df :
  filter (λ kv, isna kv.2 = false)
    (groupby_mean pair_le (λ r, (idx r, col r)) val df)
  = (λ k, (k, Fin (Qcmean (column val
              (group_rows (λ r, (idx r, col r)) k df)))))
      <$> group_keys pair_le (λ r, (idx r, col r)) df.
Proof.
  rewrite groupby_mean_spec. apply filter_all, Forall_fmap, Forall_forall.
  by intros.
Qed.

Lemma unstack_cell_agged df t d :
  unstack_cell
    (filter (λ kv, isna kv.2 = false)
      (groupby_mean pair_le (λ r, (idx r, col r)) val df)) t d
  = cell_mean idx col val df t d.
Proof.
  unfold unstack_cell, cell_mean. rewrite pivot_agged, assoc_graph.
  destruct (decide _) as [Hin|Hin]; rewrite elem_of_pair_keys in Hin.
  - simpl. by destruct (group_rows _ _ _).
  - simpl. destruct (group_rows _ _ _); [done|]. by destruct Hin.
Qed.

Lemma pivot_agged_keys df :
  (filter (λ kv, isna kv.2 = false)
    (groupby_mean pair_le (λ r, (idx r, col r)) val df)).*1
  = group_keys pair_le (λ r, (idx r, col r)) df.
Proof.
  rewrite pivot_agged, <- list_fmap_compose. apply list_fmap_id.
Qed.

Lemma elem_of_pair_keys_fst df t :
  t ∈ (group_keys pair_le (λ r, (idx r, col r)) df).*1 ↔ t ∈ column idx df.
Proof.
  unfold column. rewrite !list_elem_of_fmap. split.
  - intros ([t' d] & -> & Hk). apply elem_of_group_keys in Hk.
    apply list_elem_of_fmap in Hk as (r & [= -> ->] & Hr). by exists r.
  - intros (r & -> & Hr). exists (idx r, col r). split; [done|].
    by apply elem_of_group_keys, (elem_of_column (λ r, (idx r, col r))).
Qed.

Lemma elem_of_pair_keys_snd df d :
  d ∈ (group_keys pair_le (λ r, (idx r, col r)) df).*2 ↔ d ∈ column col df.
Proof.
  unfold column. rewrite !list_elem_of_fmap. split.
  - intros ([t d'] & -> & Hk). apply elem_of_group_keys in Hk.
    apply list_elem_of_fmap in Hk as (r & [= -> ->] & Hr). by exists r.
  - intros (r & -> & Hr). exists (idx r, col r). split; [done|].
    by apply elem_of_group_keys, (elem_of_column (λ r, (idx r, col r))).
Qed.

(** The pivot table is the grid of the cell means over the sorted
    distinct labels of the two key columns. *)
Lemma pivot_table_grid df :
  pivot_table idx col val df
  = Pivot (group_keys str_le idx df) (group_keys str_le col df)
      ((λ t, (λ d, cell_mean idx col val df t d) <$> group_keys str_le col df)
         <$> group_keys str_le idx df).
Proof.
  assert (merge_sort str_le (unique
            (group_keys pair_le (λ r, (idx r, col r)) df).*1)
          = group_keys str_le idx df) as Ei.
  { apply (Sorted_unique str_le); try apply Sorted_merge_sort; try apply _.
    rewrite merge_sort_Permutation.
    apply NoDup_Permutation; [apply NoDup_unique|apply NoDup_group_keys|].
    intros t.
    by rewrite elem_of_unique, elem_of_pair_keys_fst, elem_of_group_keys. }
  assert (merge_sort str_le (unique
            (group_keys pair_le (λ r, (idx r, col r)) df).*2)
          = group_keys str_le col df) as Ec.
  { apply (Sorted_unique str_le); try apply Sorted_merge_sort; try apply _.
    rewrite merge_sort_Permutation.
    apply NoDup_Permutation; [apply NoDup_unique|apply NoDup_group_keys|].
    intros t.
    by rewrite elem_of_unique, elem_of_pair_keys_snd, elem_of_group_keys. }
  unfold pivot_table. rewrite pivot_agged_keys, Ei, Ec.
  rewrite (filter_all _ (group_keys str_le col df)).
  - f_equal. apply list_fmap_ext. intros _ t _.
    apply list_fmap_ext. intros _ d _. apply unstack_cell_agged.
  - apply Forall_forall. intros d Hd. apply Exists_exists.
    apply elem_of_group_keys, list_elem_of_fmap in Hd as (r & -> & Hr).
    exists (idx r). split; [by apply elem_of_group_keys, elem_of_column|].
    rewrite unstack_cell_agged. unfold cell_mean.
    destruct (group_rows _ _ _) as [|r' rows] eqn:E; [|done].
    assert (r ∈ group_rows (λ r, (idx r, col r)) (idx r, col r) df) as Hin
      by by apply elem_of_group_rows.
    rewrite E in Hin. by apply elem_of_nil in Hin.
Qed.
End pivot_facts.

(** C6: the pivot is a grid over the Capacity Tier values and the Time
    of Day values of the subset (each once, in sorted order); the cell
    of a pair of labels with at least one matching row holds the mean
    Cost per Person of those rows, and the cell of a pair without a
    matching row holds NaN, the blank value, not a number. *)
Theorem heatmap_data_grid (df : dataframe) :
  (∀ t, t ∈ pv_index (heatmap_data df) ↔ t ∈ column Capacity_tier df)
  ∧ (∀ d, d ∈ pv_columns (heatmap_data df) ↔ d ∈ column Time_of_day df)
  ∧ NoDup (pv_index (heatmap_data df))
  ∧ NoDup (pv_columns (heatmap_data df))
  ∧ StronglySorted str_le (pv_index (heatmap_data df))
  ∧ StronglySorted str_le (pv_columns (heatmap_data df))
  ∧ ∀ t d,
      pivot_loc (heatmap_data df) t d
      = if decide (t ∈ column Capacity_tier df ∧ d ∈ column Time_of_day df)
        then Some
          (match filter (λ r, (Capacity_tier r, Time_of_day r) = (t, d)) df with
           | [] => NaN
           | rows => Fin (Qcmean (column Cost_per_person rows))
           end)
        else None.
Proof.
  unfold heatmap_data. rewrite pivot_table_grid. simpl. split_and!.
  - intros t. apply elem_of_group_keys.
  - intros d. apply elem_of_group_keys.
  - apply NoDup_group_keys.
  - apply NoDup_group_keys.
  - apply group_keys_sorted; apply _.
  - apply group_keys_sorted; apply _.
  - intros t d. rewrite pivot_loc_grid.
    destruct (decide (t ∈ group_keys _ _ _ ∧ _)) as [Hin|Hin];
      rewrite !elem_of_group_keys in Hin.
    + by rewrite decide_True.
    + by rewrite decide_False.
Qed.

(** ** Navigation state *)

Lemma nav_pass_other (ss : gmap string string) :
  is_Some (ss !! "page") → nav_pass other_widget ss = (ss, false).
Proof. intros Hp. unfold nav_pass. simpl. by rewrite decide_True. Qed.

Lemma run_click_home (ss : gmap string string) :
  page (run click_home ss) = Some "Home".
Proof.
  unfold run, nav_pass, page. simpl.
  rewrite decide_True by (rewrite lookup_insert_eq; eauto).
  simpl. apply lookup_insert_eq.
Qed.

Lemma run_click_about (ss : gmap string string) :
  page (run click_about ss) = Some "About".
Proof.
  unfold run, nav_pass, page. simpl.
  rewrite decide_True by (rewrite lookup_insert_eq; eauto).
  simpl. apply lookup_insert_eq.
Qed.

Lemma run_other (ss : gmap string string) :
  is_Some (page ss) → run other_widget ss = ss.
Proof. intros Hp. unfold run. by rewrite nav_pass_other. Qed.

Lemma run_other_fresh (ss : gmap string string) :
  page ss = None → page (run other_widget ss) = Some "Home".
Proof.
  intros Hp. unfold run, nav_pass, page in *. simpl.
  rewrite decide_False by (rewrite Hp; by intros [? ?]).
  simpl. apply lookup_insert_eq.
Qed.

Lemma session_snoc (evs : list interaction) (ev : interaction) :
  session (evs ++ [ev]) = run ev (session evs).
Proof. unfold session. by rewrite foldl_app. Qed.

Lemma session_page (evs : list interaction) :
  page (session evs) = Some "Home" ∨ page (session evs) = Some "About".
Proof.
  induction evs as [|ev evs IH] using rev_ind.
  - left. by apply run_other_fresh.
  - rewrite session_snoc. destruct ev.
    + left. apply run_click_home.
    + right. apply run_click_about.
    + rewrite run_other; [done|]. destruct IH as [-> | ->]; eauto.
Qed.

(** C8: the navigation state is Home after the first page load; it is
    one of Home and About at every point of a session; the Home action
    sets it to Home and the About action sets it to About, from any
    state (so neither state is terminal); and a run triggered by
    anything else leaves the whole session state as it was. *)
Theorem navigation_state :
  page (session []) = Some "Home"
  ∧ (∀ evs, page (session evs) = Some "Home" ∨ page (session evs) = Some "About")
  ∧ (∀ evs, page (session (evs ++ [click_home])) = Some "Home")
  ∧ (∀ evs, page (session (evs ++ [click_about])) = Some "About")
  ∧ (∀ evs, session (evs ++ [other_widget]) = session evs).
Proof.
  split_and!.
  - by apply run_other_fresh.
  - apply session_page.
  - intros evs. rewrite session_snoc. apply run_click_home.
  - intros evs. rewrite session_snoc. apply run_click_about.
  - intros evs. rewrite session_snoc. apply run_other.
    destruct (session_page evs) as [-> | ->]; eauto.
Qed.

(** ** The fixture, end to end

    Selecting only the small tier keeps the three rows priced 10, 20
    and 30; their grouped mean is 20 and the large tier does not appear
    in the tier table. *)
Example small_tier_scenario :
  let s := {| sel_Organisation_Name := sel_Organisation_Name (default_selection fixture);
              sel_Time_of_day := sel_Time_of_day (default_selection fixture);
              sel_Location := sel_Location (default_selection fixture);
              sel_Capacity_tier := ["Small"] |} in
  length (df_selection fixture s) = 3%nat
  ∧ avg_price_by_tier (df_selection fixture s) = [("Small", Fin (Qc_of_Z 20))].
Proof.
  split; [reflexivity|].
  vm_compute. do 3 f_equal. apply Qc_is_canon. reflexivity.
Qed.

(** * Further properties of the script *)

(** ** The selector *)

Lemma filter_ext_in {A} (P Q : A → Prop)
    `{∀ x, Decision (P x)} `{∀ x, Decision (Q x)} (l : list A) :
  (∀ x, x ∈ l → (P x ↔ Q x)) → filter P l = filter Q l.
Proof.
  induction l as [|x l IH]; intros HPQ; [done|].
  rewrite !filter_cons.
  rewrite IH by (intros y Hy; apply HPQ; by right).
  destruct (decide (P x)) as [HP|HP].
  - rewrite decide_True; [done|]. apply HPQ; [left|done].
  - rewrite decide_False; [done|]. rewrite <- HPQ; [done|left].
Qed.

(** X1: lines 80-85: a row is kept exactly when its value in each of the
    four columns is in the list chosen for that column; the kept rows
    keep their order and their multiplicity. *)
Theorem selector_keeps_exactly_matching_rows (df : dataframe) (s : selection) :
  df_selection df s
  = filter (λ r, Organisation_Name r ∈ sel_Organisation_Name s
                 ∧ Time_of_day r ∈ sel_Time_of_day s
                 ∧ Location r ∈ sel_Location s
                 ∧ Capacity_tier r ∈ sel_Capacity_tier s) df.
Proof.
  rewrite df_selection_filter. apply list_filter_iff.
  intros r. apply row_passes_true.
Qed.

(** X2: lines 80-85: only the chosen values that occur in the column
    matter.  Two selections that agree on the values present in each
    column select the same rows: the order of a selection, repeated
    entries, and values that occur nowhere in the column are inert. *)
Theorem selection_matters_on_present_values
    (df : dataframe) (s1 s2 : selection) :
  (∀ x, x ∈ column Organisation_Name df →
        (x ∈ sel_Organisation_Name s1 ↔ x ∈ sel_Organisation_Name s2)) →
  (∀ x, x ∈ column Time_of_day df →
        (x ∈ sel_Time_of_day s1 ↔ x ∈ sel_Time_of_day s2)) →
  (∀ x, x ∈ column Location df →
        (x ∈ sel_Location s1 ↔ x ∈ sel_Location s2)) →
  (∀ x, x ∈ column Capacity_tier df →
        (x ∈ sel_Capacity_tier s1 ↔ x ∈ sel_Capacity_tier s2)) →
  df_selection df s1 = df_selection df s2.
Proof.
  intros Ho Ht Hl Hc. rewrite !df_selection_filter.
  apply filter_ext_in. intros r Hr. rewrite !row_passes_true.
  rewrite (Ho _ (elem_of_column Organisation_Name df r Hr)).
  rewrite (Ht _ (elem_of_column Time_of_day df r Hr)).
  rewrite (Hl _ (elem_of_column Location df r Hr)).
  rewrite (Hc _ (elem_of_column Capacity_tier df r Hr)).
  done.
Qed.

Lemma selection_matters_on_present_values_witness :
  df_selection fixture
    (Selection ["Priory"; "Guild"; "Central"; "Guild"] ["Evening"; "Day"]
               ["South"; "North"; "Elsewhere"] ["Large"; "Small"])
  = df_selection fixture (default_selection fixture).
Proof.
  apply (selection_matters_on_present_values fixture);
    intros x Hx; apply list_elem_of_In in Hx; simpl in Hx;
    repeat (destruct Hx as [<-|Hx];
            [split; intros _; apply (bool_decide_unpack _); vm_compute; exact I|]);
    destruct Hx.
Defined.

(** X3: lines 80-85: choosing more values never loses a row.  When each
    list of one selection is contained in the corresponding list of
    another, the rows kept by the first are a subsequence of the rows
    kept by the second. *)
Theorem larger_selection_keeps_more (df : dataframe) (s1 s2 : selection) :
  sel_Organisation_Name s1 ⊆ sel_Organisation_Name s2 →
  sel_Time_of_day s1 ⊆ sel_Time_of_day s2 →
  sel_Location s1 ⊆ sel_Location s2 →
  sel_Capacity_tier s1 ⊆ sel_Capacity_tier s2 →
  df_selection df s1 `sublist_of` df_selection df s2.
Proof.
  intros Ho Ht Hl Hc. rewrite !df_selection_filter.
  rewrite <- (list_filter_filter_l (λ r, row_passes s1 r = true)
                (λ r, row_passes s2 r = true) df).
  - apply sublist_filter.
  - intros r. rewrite !row_passes_true. intros (? & ? & ? & ?).
    split_and!; [by apply Ho|by apply Ht|by apply Hl|by apply Hc].
Qed.

Lemma larger_selection_keeps_more_witness :
  df_selection fixture (Selection ["Central"; "Guild"] ["Day"] ["North"; "South"] ["Small"])
  `sublist_of`
  df_selection fixture (Selection ["Central"; "Guild"; "Priory"] ["Day"; "Evening"]
                          ["North"; "South"] ["Small"]).
Proof.
  apply (larger_selection_keeps_more fixture);
    intros x Hx; apply list_elem_of_In in Hx; simpl in Hx;
    repeat (destruct Hx as [<-|Hx];
            [apply (bool_decide_unpack _); vm_compute; exact I|]);
    destruct Hx.
Defined.

(** X4: lines 80-85: selecting is idempotent and two selections commute:
    filtering a filtered subset again by the same selection changes
    nothing, and filtering by two selections gives the same rows in
    either order. *)
Theorem df_selection_idempotent_commutes (df : dataframe) (s1 s2 : selection) :
  df_selection (df_selection df s1) s1 = df_selection df s1
  ∧ df_selection (df_selection df s1) s2 = df_selection (df_selection df s2) s1.
Proof.
  rewrite !df_selection_filter. split.
  - by apply list_filter_filter_l.
  - rewrite !list_filter_filter. apply list_filter_iff. intros r. tauto.
Qed.

Lemma column_df_selection_tier (df : dataframe) (s : selection) (t : string) :
  t ∈ column Capacity_tier (df_selection df s) → t ∈ sel_Capacity_tier s.
Proof.
  intros (r & -> & Hr)%list_elem_of_fmap.
  apply elem_of_df_selection in Hr as [_ Hr].
  by apply row_passes_true in Hr as (_ & _ & _ & ?).
Qed.

Lemma column_df_selection_time (df : dataframe) (s : selection) (d : string) :
  d ∈ column Time_of_day (df_selection df s) → d ∈ sel_Time_of_day s.
Proof.
  intros (r & -> & Hr)%list_elem_of_fmap.
  apply elem_of_df_selection in Hr as [_ Hr].
  by apply row_passes_true in Hr as (_ & ? & _ & _).
Qed.

(** X5: lines 80-133: a category that is filtered out does not appear in
    the views.  The tier table of the filtered subset has rows only
    for chosen tiers, the time-of-day table only for chosen times, and
    the pivot has row labels only among the chosen tiers and column
    labels only among the chosen times. *)
Theorem filtered_out_categories_are_absent (df : dataframe) (s : selection) :
  Forall (λ e, e.1 ∈ sel_Capacity_tier s) (avg_price_by_tier (df_selection df s))
  ∧ Forall (λ e, e.1 ∈ sel_Time_of_day s) (avg_price_by_time (df_selection df s))
  ∧ Forall (λ t, t ∈ sel_Capacity_tier s)
      (pv_index (heatmap_data (df_selection df s)))
  ∧ Forall (λ d, d ∈ sel_Time_of_day s)
      (pv_columns (heatmap_data (df_selection df s))).
Proof.
  split_and!; apply Forall_forall.
  - intros [t m] [Ht _]%elem_of_groupby_mean.
    by apply column_df_selection_tier in Ht.
  - intros [d m] [Hd _]%elem_of_groupby_mean.
    by apply column_df_selection_time in Hd.
  - intros t Ht. unfold heatmap_data in Ht. rewrite pivot_table_grid in Ht.
    simpl in Ht. apply elem_of_group_keys in Ht.
    by apply column_df_selection_tier in Ht.
  - intros d Hd. unfold heatmap_data in Hd. rewrite pivot_table_grid in Hd.
    simpl in Hd. apply elem_of_group_keys in Hd.
    by apply column_df_selection_time in Hd.
Qed.

(** ** Distinct values of a column *)

Lemma unique_from_cons {A} `{EqDecision A} (seen l : list A) (x : A) :
  unique_from seen (x :: l)
  = if decide (x ∈ seen) then unique_from seen l
    else x :: unique_from (x :: seen) l.
Proof. reflexivity. Qed.

Lemma unique_from_ext {A} `{EqDecision A} (s1 s2 l : list A) :
  (∀ y, y ∈ l → (y ∈ s1 ↔ y ∈ s2)) → unique_from s1 l = unique_from s2 l.
Proof.
  revert s1 s2. induction l as [|x l IH]; intros s1 s2 Hs; [done|].
  rewrite !unique_from_cons.
  destruct (decide (x ∈ s1)) as [Hx|Hx].
  - rewrite decide_True by (apply Hs; [left|done]).
    apply IH. intros y Hy. apply Hs. by right.
  - rewrite decide_False by (rewrite <- Hs; [done|left]).
    f_equal. apply IH. intros y Hy. rewrite !elem_of_cons.
    rewrite (Hs y) by (by right). done.
Qed.

Lemma unique_from_drop_seen {A} `{EqDecision A} (T seen l : list A) :
  T ⊆ seen → unique_from seen (filter (λ y, y ∉ T) l) = unique_from seen l.
Proof.
  revert seen. induction l as [|x l IH]; intros seen HT; [done|].
  rewrite filter_cons, (unique_from_cons seen l).
  destruct (decide (x ∉ T)) as [Hx|Hx].
  - rewrite unique_from_cons. destruct (decide (x ∈ seen)).
    + by apply IH.
    + f_equal. apply IH. intros y Hy. right. by apply HT.
  - rewrite decide_True by (apply HT; by apply dec_stable).
    by apply IH.
Qed.

(** X6: lines 57-76, [unique()]: the options of a filter are the values of
    its column, each once, in the order in which they first appear in
    the sheet: the first value of the column comes first, followed by
    the distinct values of what remains once its repetitions are
    removed. *)
Theorem unique_lists_first_appearances {A} `{EqDecision A} (l : list A) :
  NoDup (unique l)
  ∧ (∀ x, x ∈ unique l ↔ x ∈ l)
  ∧ unique l `sublist_of` l
  ∧ unique l = match l with
               | [] => []
               | x :: l' => x :: unique (filter (λ y, y ≠ x) l')
               end.
Proof.
  split_and!.
  - apply NoDup_unique.
  - intros x. apply elem_of_unique.
  - unfold unique. generalize (@nil A) as seen.
    induction l as [|x l IH]; intros seen; [done|].
    rewrite unique_from_cons. destruct (decide (x ∈ seen)).
    + apply sublist_cons, IH.
    + apply sublist_skip, IH.
  - destruct l as [|x l]; [done|].
    unfold unique at 1. rewrite unique_from_cons.
    rewrite decide_False by apply not_elem_of_nil.
    f_equal. rewrite <- (unique_from_drop_seen [x] [x] l) by done.
    rewrite (list_filter_iff (λ y, y ∉ [x]) (λ y, y ≠ x))
      by (intros y; by rewrite list_elem_of_singleton).
    apply unique_from_ext. intros y [Hy _]%list_elem_of_filter.
    rewrite list_elem_of_singleton, elem_of_nil. tauto.
Qed.

(** ** Groups *)

Lemma join_groups {K} `{EqDecision K} (key : row → K) (ks : list K)
    (df : dataframe) :
  NoDup ks → (∀ r, r ∈ df → key r ∈ ks) →
  mjoin ((λ k, group_rows key k df) <$> ks) ≡ₚ df.
Proof.
  intros Hks. revert df. induction Hks as [|k ks Hk Hks IH]; intros df Hcov.
  - destruct df as [|r df]; [done|].
    destruct (not_elem_of_nil (key r)). apply Hcov. left.
  - csimpl.
    rewrite (list_fmap_ext (λ k', group_rows key k' df)
               (λ k', group_rows key k' (filter (λ r, ¬ key r = k) df)) ks).
    + rewrite IH.
      * apply (filter_app_complement (λ r, key r = k)).
      * intros r [Hr Hin]%list_elem_of_filter.
        apply Hcov, elem_of_cons in Hin as [?|?]; done.
    + intros _ k' Hk'%list_elem_of_lookup_2. unfold group_rows.
      symmetry. apply list_filter_filter_l. intros r -> ->. done.
Qed.

(** X9: lines 92, 105, 153: grouping neither drops nor duplicates rows.
    Whatever the key, the groups are non-empty, have distinct keys,
    each holds rows of its own key in frame order, and together they
    are a rearrangement of the frame; so the group sizes add up to the
    number of rows. *)
Theorem groupby_partitions_rows {K} `{EqDecision K}
    (le : relation K) `{∀ x y, Decision (le x y)}
    (key : row → K) (df : dataframe) :
  mjoin ((groupby le key df).*2) ≡ₚ df
  ∧ NoDup ((groupby le key df).*1)
  ∧ Forall (λ g, g.2 ≠ [] ∧ Forall (λ r, key r = g.1) g.2 ∧ g.2 `sublist_of` df)
      (groupby le key df)
  ∧ sum_list ((group_sizes le key df).*2) = length df.
Proof.
  assert (mjoin ((groupby le key df).*2) ≡ₚ df) as Hjoin.
  { unfold groupby. rewrite <- list_fmap_compose.
    apply (join_groups key); [apply NoDup_group_keys|].
    intros r Hr. by apply elem_of_group_keys, elem_of_column. }
  split_and!.
  - done.
  - rewrite groupby_keys. apply NoDup_group_keys.
  - unfold groupby. apply Forall_fmap, Forall_forall. intros k Hk. simpl.
    split_and!.
    + by apply (group_rows_nonempty le).
    + apply Forall_forall. by intros r [_ ?]%elem_of_group_rows.
    + apply sublist_filter.
  - unfold group_sizes. rewrite <- list_fmap_compose.
    rewrite <- Hjoin at 2. rewrite length_join, <- list_fmap_compose. done.
Qed.

Lemma StronglySorted_strict {A} (R : relation A) (l : list A) :
  StronglySorted R l → NoDup l → StronglySorted (λ x y, R x y ∧ x ≠ y) l.
Proof.
  induction 1 as [|x l Hl IH Hx]; intros Hnd; [constructor|].
  apply NoDup_cons in Hnd as [Hxl Hnd].
  constructor; [by apply IH|].
  apply Forall_forall. intros y Hy. rewrite Forall_forall in Hx.
  split; [by apply Hx|]. by intros ->.
Qed.

(** X10: lines 92 and 105: the tier table and the time-of-day table have
    one row per value present in the subset, in strictly ascending
    order of the label, each holding the mean Price per Hour of the
    rows with that label. *)
Theorem tier_and_time_tables_sorted_by_label (df : dataframe) :
  StronglySorted (λ a b, str_le a b ∧ a ≠ b) (avg_price_by_tier df).*1
  ∧ (∀ t m, (t, m) ∈ avg_price_by_tier df
          ↔ t ∈ column Capacity_tier df
            ∧ m = Fin (Qcmean (column Price_per_hour
                  (filter (λ r, Capacity_tier r = t) df))))
  ∧ StronglySorted (λ a b, str_le a b ∧ a ≠ b) (avg_price_by_time df).*1
  ∧ (∀ d m, (d, m) ∈ avg_price_by_time df
          ↔ d ∈ column Time_of_day df
            ∧ m = Fin (Qcmean (column Price_per_hour
                  (filter (λ r, Time_of_day r = d) df)))).
Proof.
  unfold avg_price_by_tier, avg_price_by_time.
  rewrite !groupby_mean_keys. split_and!.
  - apply StronglySorted_strict;
      [apply group_keys_sorted; apply _|apply NoDup_group_keys].
  - intros t m. apply elem_of_groupby_mean.
  - apply StronglySorted_strict;
      [apply group_keys_sorted; apply _|apply NoDup_group_keys].
  - intros d m. apply elem_of_groupby_mean.
Qed.

(** ** Row order *)

Section row_order.
Context {K : Type} `{EqDecision K}.
Context (le : relation K) `{∀ x y, Decision (le x y)}.
Context `{!Transitive le, !Total le, !AntiSymm (=) le}.
Context (key : row → K).

Lemma group_keys_row_order (df df' : dataframe) :
  df ≡ₚ df' → group_keys le key df = group_keys le key df'.
Proof.
  intros Hp. apply (Sorted_unique le).
  - apply Sorted_merge_sort; apply _.
  - apply Sorted_merge_sort; apply _.
  - apply NoDup_Permutation; [apply NoDup_group_keys..|].
    intros k. rewrite !elem_of_group_keys. unfold column. by rewrite Hp.
Qed.
End row_order.

(** X12: lines 92-133 and 153: the labels of the views do not depend on the
    order of the rows.  Two subsets that hold the same rows in a
    different order give the three grouped tables the same keys in the
    same order, and the pivot the same row labels and the same column
    labels. *)
Theorem view_labels_ignore_row_order (df df' : dataframe) :
  df ≡ₚ df' →
  (avg_price_by_tier df).*1 = (avg_price_by_tier df').*1
  ∧ (avg_price_by_time df).*1 = (avg_price_by_time df').*1
  ∧ (avg_price_by_duration df).*1 = (avg_price_by_duration df').*1
  ∧ pv_index (heatmap_data df) = pv_index (heatmap_data df')
  ∧ pv_columns (heatmap_data df) = pv_columns (heatmap_data df').
Proof.
  intros Hp.
  unfold avg_price_by_tier, avg_price_by_time, avg_price_by_duration,
    heatmap_data.
  rewrite !groupby_mean_keys, !pivot_table_grid. simpl.
  split_and!; by apply group_keys_row_order; try apply _.
Qed.

Lemma view_labels_ignore_row_order_witness :
  (avg_price_by_tier (reverse fixture)).*1 = (avg_price_by_tier fixture).*1
  ∧ (avg_price_by_time (reverse fixture)).*1 = (avg_price_by_time fixture).*1
  ∧ (avg_price_by_duration (reverse fixture)).*1
    = (avg_price_by_duration fixture).*1
  ∧ pv_index (heatmap_data (reverse fixture)) = pv_index (heatmap_data fixture)
  ∧ pv_columns (heatmap_data (reverse fixture))
    = pv_columns (heatmap_data fixture).
Proof.
  apply (view_labels_ignore_row_order (reverse fixture) fixture).
  apply reverse_Permutation.
Defined.

(** ** Shape of the pivot *)

(** X13: lines 130-133: the pivot is a full rectangle with no blank row and
    no blank column: there is one row of cells per row label, each as
    long as the list of column labels; every row label has a cell that
    holds a number, and so has every column label. *)
Theorem heatmap_is_a_full_grid (df : dataframe) :
  length (pv_values (heatmap_data df)) = length (pv_index (heatmap_data df))
  ∧ Forall (λ cells, length cells = length (pv_columns (heatmap_data df)))
      (pv_values (heatmap_data df))
  ∧ Forall (λ t, ∃ d m, pivot_loc (heatmap_data df) t d = Some (Fin m))
      (pv_index (heatmap_data df))
  ∧ Forall (λ d, ∃ t m, pivot_loc (heatmap_data df) t d = Some (Fin m))
      (pv_columns (heatmap_data df)).
Proof.
  unfold heatmap_data. rewrite pivot_table_grid. simpl.
  assert (∀ r, r ∈ df →
            ∃ m, pivot_loc
                   (Pivot (group_keys str_le Capacity_tier df)
                      (group_keys str_le Time_of_day df)
                      ((λ t, (λ d, cell_mean Capacity_tier Time_of_day
                                     Cost_per_person df t d)
                               <$> group_keys str_le Time_of_day df)
                         <$> group_keys str_le Capacity_tier df))
                   (Capacity_tier r) (Time_of_day r) = Some (Fin m)) as Hcell.
  { intros r Hr. rewrite pivot_loc_grid.
    rewrite decide_True
      by (split; by apply elem_of_group_keys, elem_of_column).
    unfold cell_mean.
    destruct (group_rows _ _ df) as [|r' rows] eqn:E; [|by eexists].
    assert (r ∈ group_rows (λ r, (Capacity_tier r, Time_of_day r))
                  (Capacity_tier r, Time_of_day r) df) as Hin
      by by apply elem_of_group_rows.
    rewrite E in Hin. by apply elem_of_nil in Hin. }
  split_and!.
  - by rewrite length_fmap.
  - apply Forall_fmap, Forall_forall. intros t _. simpl. by rewrite length_fmap.
  - apply Forall_forall. intros t Ht.
    apply elem_of_group_keys, list_elem_of_fmap in Ht as (r & -> & Hr).
    exists (Time_of_day r). by apply Hcell.
  - apply Forall_forall. intros d Hd.
    apply elem_of_group_keys, list_elem_of_fmap in Hd as (r & -> & Hr).
    exists (Capacity_tier r). by apply Hcell.
Qed.

(** ** The five dearest rooms, whatever the kernel *)

(** X15: line 146: the prices shown in the top-5 chart do not depend on how
    the sort treats equal prices.  Two sorting kernels may pick or
    order rooms of equal price differently, but the list of prices of
    the rooms they return is the same. *)
Theorem top_rooms_prices_do_not_depend_on_kernel
    (argsort1 argsort2 : list Qc → list nat) (df : dataframe) :
  argsort_spec argsort1 → argsort_spec argsort2 →
  column Price_per_hour <$> top_rooms argsort1 df
  = column Price_per_hour <$> top_rooms argsort2 df.
Proof.
  intros H1 H2.
  destruct (sort_values_desc_spec argsort1 H1 Price_per_hour df)
    as (l1 & E1 & P1 & S1).
  destruct (sort_values_desc_spec argsort2 H2 Price_per_hour df)
    as (l2 & E2 & P2 & S2).
  unfold top_rooms. rewrite E1, E2. simpl. f_equal.
  unfold column. rewrite !fmap_take. f_equal.
  apply (StronglySorted_unique_strong (flip Qcle)).
  - intros x y _ _ Hxy Hyx. unfold flip in *. by apply Qcle_antisym.
  - eapply (StronglySorted_fmap Price_per_hour); [|exact S1]. by intros.
  - eapply (StronglySorted_fmap Price_per_hour); [|exact S2]. by intros.
  - by rewrite P1, P2.
Qed.

Lemma top_rooms_prices_do_not_depend_on_kernel_witness :
  column Price_per_hour <$> top_rooms argsort_stable fixture
  = column Price_per_hour <$> top_rooms argsort_reversing fixture.
Proof.
  apply (top_rooms_prices_do_not_depend_on_kernel
           argsort_stable argsort_reversing fixture);
    apply argsort_with_spec.
Defined.

(** X16: line 146: the top-5 chart shows min(5, n) rooms of the subset, and
    no room that is left out is dearer than a room that is shown. *)
Theorem top_rooms_dominate_the_rest
    (argsort : list Qc → list nat) (df : dataframe) :
  argsort_spec argsort →
  ∃ top rest,
    top_rooms argsort df = Some top
    ∧ top ++ rest ≡ₚ df
    ∧ length top = (5 `min` length df)%nat
    ∧ Forall (λ a, Forall (λ b, Price_per_hour b ≤ Price_per_hour a) rest) top.
Proof.
  intros Hspec.
  destruct (sort_values_desc_spec argsort Hspec Price_per_hour df)
    as (l & El & Pl & Sl).
  exists (take 5 l), (drop 5 l). split_and!.
  - unfold top_rooms. by rewrite El.
  - by rewrite take_drop.
  - by rewrite length_take, Pl.
  - apply Forall_forall. intros a Ha. apply Forall_forall. intros b Hb.
    rewrite <- (take_drop 5 l) in Sl.
    by apply (StronglySorted_app_1_elem_of _ _ _ a b) in Sl.
Qed.

Lemma top_rooms_dominate_the_rest_witness :
  ∃ top rest,
    top_rooms argsort_reversing fixture = Some top
    ∧ top ++ rest ≡ₚ fixture
    ∧ length top = (5 `min` length fixture)%nat
    ∧ Forall (λ a, Forall (λ b, Price_per_hour b ≤ Price_per_hour a) rest) top.
Proof.
  apply (top_rooms_dominate_the_rest argsort_reversing fixture).
  apply argsort_with_spec.
Defined.

(** ** Zero capacities *)

Lemma truediv_positive (p : Qc) (c : Z) :
  0 < p → truediv p c = PInf ∨ ∃ q, truediv p c = Fin q.
Proof.
  intros Hp. unfold truediv. destruct (decide (c = 0%Z)); [|eauto].
  rewrite decide_True by done. by left.
Qed.


Lemma fsum_with_infinity (l : list fval) :
  Forall (λ x, x = PInf ∨ ∃ q, x = Fin q) l →
  foldr fadd (Fin 0) l = PInf
  ∨ ((PInf ∉ l) ∧ (∃ q, foldr fadd (Fin 0) l = Fin q)).
Proof.
  induction 1 as [|x l Hx _ IH]; simpl.
  - right. split; [apply not_elem_of_nil|eauto].
  - destruct Hx as [->|[q ->]].
    + left. by destruct IH as [->|(_ & q & ->)].
    + destruct IH as [->|(Hn & q' & ->)]; [by left|].
      right. split; [|simpl; eauto].
      rewrite not_elem_of_cons. by split.
Qed.

(** X17: line 94: nothing guards the division against a zero capacity.  If
    the prices of a subset are all positive and one of its rows has
    capacity zero, the average price per person is +infinity. *)
Theorem zero_capacity_makes_metric_infinite (df : dataframe) :
  Forall (λ r, 0 < Price_per_hour r) df →
  Exists (λ r, Capacity r = 0%Z) df →
  avg_price_per_person df = PInf.
Proof.
  intros Hp Hz. unfold avg_price_per_person. rewrite series_div_rowwise.
  set (s := (λ r, truediv (Price_per_hour r) (Capacity r)) <$> df).
  assert (Forall (λ x, x = PInf ∨ ∃ q, x = Fin q) s) as Hs.
  { apply Forall_fmap. eapply Forall_impl; [exact Hp|].
    intros r Hr. by apply truediv_positive. }
  assert (PInf ∈ s) as Hin.
  { apply Exists_exists in Hz as (r & Hr & Hc).
    apply list_elem_of_fmap. exists r. split; [|done].
    rewrite Forall_forall in Hp. unfold truediv.
    by rewrite Hc, !decide_True by (done || by apply Hp). }
  assert (dropna s = s) as Hd.
  { apply filter_all. eapply Forall_impl; [exact Hs|].
    by intros x [->|[q ->]]. }
  unfold series_mean. rewrite Hd.
  destruct (fsum_with_infinity s Hs) as [E|[Hn _]]; [|done].
  destruct s; [by apply elem_of_nil in Hin|]. by rewrite E.
Qed.

Lemma zero_capacity_makes_metric_infinite_witness :
  avg_price_per_person
    (listing "Guild" "Day" "South" "Small" 0 1 30 :: fixture) = PInf.
Proof.
  apply zero_capacity_makes_metric_infinite.
  - apply (bool_decide_unpack _). vm_compute. exact I.
  - apply List.Exists_cons_hd. reflexivity.
Defined.



(** ** Navigation, continued *)

Lemma run_closed_form (ev : interaction) (ss : gmap string string) :
  run ev ss
  = match ev with
    | click_home => <["page" := "Home"]> ss
    | click_about => <["page" := "About"]> ss
    | other_widget =>
        if decide (is_Some (ss !! "page")) then ss else <["page" := "Home"]> ss
    end.
Proof.
  unfold run, nav_pass. destruct ev; simpl.
  - rewrite decide_True by (rewrite lookup_insert_eq; eauto). simpl.
    destruct (decide (is_Some (ss !! "page"))); [done|].
    by rewrite insert_insert_eq.
  - rewrite decide_True by (rewrite lookup_insert_eq; eauto). simpl.
    destruct (decide (is_Some (ss !! "page"))); [done|].
    by rewrite insert_insert_eq.
  - done.
Qed.

Lemma run_page_is_Some (ev : interaction) (ss : gmap string string) :
  is_Some (run ev ss !! "page").
Proof.
  rewrite run_closed_form. destruct ev.
  - rewrite lookup_insert_eq. eauto.
  - rewrite lookup_insert_eq. eauto.
  - destruct (decide (is_Some (ss !! "page"))); [done|].
    rewrite lookup_insert_eq. eauto.
Qed.

(** X20: lines 20-31: the page shown is decided by the most recent click on
    a navigation button: About if that click was on About Us, Home if
    it was on Home or if no navigation button has been clicked yet. *)
Theorem page_follows_last_navigation_click (evs : list interaction) :
  page (session evs)
  = match last (filter (λ ev, ev ≠ other_widget) evs) with
    | Some click_about => Some "About"
    | _ => Some "Home"
    end.
Proof.
  induction evs as [|ev evs IH] using rev_ind.
  - by apply run_other_fresh.
  - rewrite session_snoc, filter_app, filter_cons, filter_nil.
    destruct ev.
    + rewrite decide_True by done. rewrite last_snoc. apply run_click_home.
    + rewrite decide_True by done. rewrite last_snoc. apply run_click_about.
    + rewrite decide_False by (by intros []). rewrite app_nil_r, <- IH.
      rewrite run_other; [done|]. destruct (session_page evs) as [-> | ->]; eauto.
Qed.

(** ** The page as displayed *)

Lemma nav_pass_click (ev : interaction) (ss : gmap string string) :
  ev ≠ other_widget → nav_pass ev ss = (run ev ss, true).
Proof.
  intros Hev. rewrite run_closed_form. unfold nav_pass.
  destruct ev; [| |done]; simpl;
    (destruct (decide (is_Some (ss !! "page"))); [done|]);
    by rewrite insert_insert_eq.
Qed.

Lemma script_pass_settled (argsort : list Qc → list nat)
    (sheet : option dataframe) (w : widget_state) (ss : gmap string string) :
  is_Some (ss !! "page") →
  script_pass argsort sheet w other_widget ss
  = let '(body, out) :=
      if decide (ss !! "page" = Some "Home") then home_page argsort sheet w
      else if decide (ss !! "page" = Some "About") then about_page
      else ([], finished) in
    (ss, navigation_controls other_widget ++ body
         ++ (if decide (out = finished) then [st_markdown txt_footer] else []),
     out).
Proof.
  intros Hp. unfold script_pass. by rewrite nav_pass_other.
Qed.

(** What is displayed after an interaction is a settled pass over the
    state the interaction leads to. *)
Lemma display_settled (argsort : list Qc → list nat)
    (sheet : option dataframe) (w : widget_state)
    (ev : interaction) (ss : gmap string string) :
  display argsort sheet w ev ss
  = script_pass argsort sheet w other_widget (run ev ss).
Proof.
  unfold display.
  destruct ev.
  - unfold script_pass at 1. by rewrite nav_pass_click.
  - unfold script_pass at 1. by rewrite nav_pass_click.
  - unfold run.
    assert (∃ ss0, nav_pass other_widget ss = (ss0, false)
                   ∧ is_Some (ss0 !! "page")) as (ss0 & E & Hp).
    { unfold nav_pass. simpl.
      destruct (decide (is_Some (ss !! "page"))); eexists; (split; [done|]);
        [done|rewrite lookup_insert_eq; eauto]. }
    rewrite E. simpl.
    rewrite (script_pass_settled _ _ _ ss0 Hp).
    unfold script_pass. rewrite E.
    destruct (if decide (ss0 !! "page" = Some "Home") then _ else _)
      as [body out] eqn:Eb.
    assert (out ≠ rerun) as Hout.
    { destruct (decide (ss0 !! "page" = Some "Home")).
      - unfold home_page in Eb. destruct sheet; [|by injection Eb as _ <-].
        destruct (top_rooms _ _); by injection Eb as _ <-.
      - destruct (decide (ss0 !! "page" = Some "About"));
          by injection Eb as _ <-. }
    by rewrite decide_False.
Qed.

Lemma display_on_about (argsort : list Qc → list nat)
    (sheet : option dataframe) (w : widget_state)
    (ev : interaction) (ss : gmap string string) :
  page (run ev ss) = Some "About" →
  display argsort sheet w ev ss
  = (run ev ss,
     [ sidebar_markdown txt_navigation; sidebar_button "Home";
       sidebar_button "About Us"; sidebar_markdown txt_rule;
       st_title "About This Dataset"; st_markdown txt_about;
       st_markdown txt_footer ],
     finished).
Proof.
  unfold page. intros Hp.
  rewrite display_settled, script_pass_settled by apply run_page_is_Some.
  rewrite Hp. rewrite decide_False by discriminate.
  by rewrite decide_True by done.
Qed.

Lemma display_on_home (argsort : list Qc → list nat)
    (sheet : option dataframe) (w : widget_state)
    (ev : interaction) (ss : gmap string string) :
  page (run ev ss) = Some "Home" →
  display argsort sheet w ev ss
  = (run ev ss,
     navigation_controls other_widget ++ (home_page argsort sheet w).1
     ++ (if decide ((home_page argsort sheet w).2 = finished)
         then [st_markdown txt_footer] else []),
     (home_page argsort sheet w).2).
Proof.
  unfold page. intros Hp.
  rewrite display_settled, script_pass_settled by apply run_page_is_Some.
  rewrite Hp. rewrite decide_True by done.
  by destruct (home_page argsort sheet w).
Qed.

(** X21: lines 20-33, 38, 161, 211: whatever the interaction, the data and
    the filters, the page that ends up displayed comes from a pass that
    was not cut short by a rerun; the session state is the one the
    navigation code leads to; the page starts with the complete
    navigation controls; and its last element is the footer exactly
    when the pass reached the end of the script. *)
Theorem displayed_page_frame (argsort : list Qc → list nat)
    (sheet : option dataframe) (w : widget_state)
    (ev : interaction) (ss : gmap string string) :
  (display argsort sheet w ev ss).1.1 = run ev ss
  ∧ (display argsort sheet w ev ss).2 ≠ rerun
  ∧ [ sidebar_markdown txt_navigation; sidebar_button "Home";
      sidebar_button "About Us"; sidebar_markdown txt_rule ]
    `prefix_of` (display argsort sheet w ev ss).1.2
  ∧ ((display argsort sheet w ev ss).2 = finished
     ↔ last (display argsort sheet w ev ss).1.2 = Some (st_markdown txt_footer)).
Proof.
  rewrite display_settled, script_pass_settled by apply run_page_is_Some.
  destruct (decide (run ev ss !! "page" = Some "Home")) as [_|_].
  - unfold home_page. destruct sheet as [df|].
    + destruct (top_rooms argsort _) as [rooms|]; cbn [fst snd].
      * split_and!; [done|done|by eexists|].
        split; [intros _|done].
        rewrite decide_True by done. rewrite !app_assoc. apply last_snoc.
      * split_and!; [done|done|by eexists|].
        split; [done|]. rewrite decide_False by done.
        rewrite app_nil_r, !app_assoc, last_app.
        unfold home_upper. cbn. discriminate.
    + simpl. split_and!; [done|done|by eexists|done].
  - destruct (decide (run ev ss !! "page" = Some "About")) as [_|_]; simpl.
    + split_and!; [done|done|by eexists|done].
    + split_and!; [done|done|by eexists|done].
Qed.

(** X22: lines 161-189 and 211: the About page is static.  Whenever the
    interaction leads to the About state, what is displayed is the
    navigation controls, the About title and text, and the footer:
    there is no filter control, metric, table or chart, and nothing
    depends on the spreadsheet, which is not even read. *)
Theorem about_page_is_static (argsort : list Qc → list nat)
    (sheet : option dataframe) (w : widget_state)
    (ev : interaction) (ss : gmap string string) :
  page (run ev ss) = Some "About" →
  display argsort sheet w ev ss
  = (run ev ss,
     [ sidebar_markdown txt_navigation; sidebar_button "Home";
       sidebar_button "About Us"; sidebar_markdown txt_rule;
       st_title "About This Dataset"; st_markdown txt_about;
       st_markdown txt_footer ],
     finished).
Proof. apply display_on_about. Qed.

Lemma about_page_is_static_witness :
  display argsort_stable None untouched click_about ∅
  = (run click_about ∅,
     [ sidebar_markdown txt_navigation; sidebar_button "Home";
       sidebar_button "About Us"; sidebar_markdown txt_rule;
       st_title "About This Dataset"; st_markdown txt_about;
       st_markdown txt_footer ],
     finished).
Proof.
  apply (about_page_is_static argsort_stable None untouched click_about ∅).
  apply run_click_about.
Defined.

(** X23: lines 38-156 and 211: the Home page is always rendered in full
    when the spreadsheet can be read: whatever the filters hold (an
    empty choice included), the pass reaches the end of the script,
    and the page shows the filter controls (with the options of the
    unfiltered sheet), the metrics, the table and the six charts of
    the filtered subset, and the footer. *)
Theorem home_page_always_completes (argsort : list Qc → list nat)
    (df : dataframe) (w : widget_state)
    (ev : interaction) (ss : gmap string string) :
  argsort_spec argsort →
  page (run ev ss) = Some "Home" →
  ∃ rooms,
    top_rooms argsort (df_selection df (multiselect_values df w)) = Some rooms
    ∧ display argsort (Some df) w ev ss
      = (run ev ss,
         navigation_controls other_widget
         ++ [sidebar_image; sidebar_markdown txt_spacer]
         ++ filter_controls df
         ++ home_upper (df_selection df (multiselect_values df w))
         ++ [ st_plotly_chart (px_bar_rooms "Top 5 Most Expensive Rooms" rooms);
              st_plotly_chart
                (px_line "Price per Hour by Minimum Booking Duration"
                   (avg_price_by_duration
                      (df_selection df (multiselect_values df w))));
              st_markdown txt_footer ],
         finished).
Proof.
  intros Hspec Hp.
  destruct (sort_values_desc_spec argsort Hspec Price_per_hour
              (df_selection df (multiselect_values df w)))
    as (l & El & _ & _).
  exists (take 5 l). split; [unfold top_rooms; by rewrite El|].
  rewrite display_on_home by done. unfold home_page, top_rooms.
  rewrite El. simpl. reflexivity.
Qed.

Lemma home_page_always_completes_witness :
  ∃ rooms,
    top_rooms argsort_stable
      (df_selection fixture (multiselect_values fixture (Widgets None (Some []) None None)))
    = Some rooms
    ∧ (display argsort_stable (Some fixture) (Widgets None (Some []) None None)
         other_widget ∅).2 = finished.
Proof.
  destruct (home_page_always_completes argsort_stable fixture
              (Widgets None (Some []) None None) other_widget ∅
              (argsort_with_spec true) (run_other_fresh ∅ (lookup_empty "page")))
    as (rooms & Hr & Hd).
  exists rooms. split; [exact Hr|]. by rewrite Hd.
Defined.

(** X24: lines 38-51 and 161: a spreadsheet that cannot be read breaks the
    Home page but not the About page.  In the Home state the pass
    stops with an exception right after the sidebar logo: no filter,
    no chart and no footer is displayed, only the navigation controls
    and the logo; a click on About Us from there still leads to the
    complete About page. *)
Theorem unreadable_sheet_breaks_home_only (argsort : list Qc → list nat)
    (w : widget_state) (ev : interaction) (ss : gmap string string) :
  page (run ev ss) = Some "Home" →
  display argsort None w ev ss
  = (run ev ss,
     [ sidebar_markdown txt_navigation; sidebar_button "Home";
       sidebar_button "About Us"; sidebar_markdown txt_rule;
       sidebar_image; sidebar_markdown txt_spacer ],
     raised)
  ∧ (display argsort None w click_about (run ev ss)).2 = finished
  ∧ last (display argsort None w click_about (run ev ss)).1.2
    = Some (st_markdown txt_footer).
Proof.
  intros Hp. split_and!.
  - by rewrite display_on_home.
  - by rewrite display_on_about by apply run_click_about.
  - by rewrite display_on_about by apply run_click_about.
Qed.

Lemma unreadable_sheet_breaks_home_only_witness :
  display argsort_stable None untouched other_widget ∅
  = (run other_widget ∅,
     [ sidebar_markdown txt_navigation; sidebar_button "Home";
       sidebar_button "About Us"; sidebar_markdown txt_rule;
       sidebar_image; sidebar_markdown txt_spacer ],
     raised).
Proof.
  destruct (unreadable_sheet_breaks_home_only argsort_stable untouched
              other_widget ∅ (run_other_fresh ∅ (lookup_empty "page"))) as (H & _ & _).
  exact H.
Defined.

(** ** When the views are empty *)

Lemma groupby_mean_nil_iff {K} `{EqDecision K}
    (le : relation K) `{∀ x y, Decision (le x y)}
    (key : row → K) (val : row → Qc) (df : dataframe) :
  groupby_mean le key val df = [] ↔ df = [].
Proof.
  split; [|by intros ->].
  intros Hnil. destruct df as [|r df]; [done|].
  assert (key r ∈ (groupby_mean le key val (r :: df)).*1) as Hin.
  { rewrite groupby_mean_keys. apply elem_of_group_keys. left. }
  rewrite Hnil in Hin. by apply elem_of_nil in Hin.
Qed.

(** X25: lines 92-133 and 153: the views are in their no-data state only
    for an empty subset.  The average price per hour is missing
    exactly when the subset has no row, and so is each grouped table
    empty, and the pivot without row labels, exactly then. *)
Theorem no_data_only_for_empty_subset (df : dataframe) :
  (avg_price_per_hour df = NaN ↔ df = [])
  ∧ (avg_price_by_tier df = [] ↔ df = [])
  ∧ (avg_price_by_time df = [] ↔ df = [])
  ∧ (avg_price_by_duration df = [] ↔ df = [])
  ∧ (pv_index (heatmap_data df) = [] ↔ df = []).
Proof.
  split_and!.
  - split; [|by intros ->]. intros Hna. destruct df as [|r df]; [done|].
    unfold avg_price_per_hour in Hna.
    by rewrite series_mean_Fin in Hna.
  - apply groupby_mean_nil_iff.
  - apply groupby_mean_nil_iff.
  - apply groupby_mean_nil_iff.
  - unfold heatmap_data. rewrite pivot_table_grid. simpl.
    split; [|by intros ->]. intros Hnil. destruct df as [|r df]; [done|].
    assert (Capacity_tier r ∈ group_keys str_le Capacity_tier (r :: df)) as Hin
      by (apply elem_of_group_keys; left).
    rewrite Hnil in Hin. by apply elem_of_nil in Hin.
Qed.
